(** * Flash-message store of webapp/flash_messages.py

    A shallow embedding of the session-scoped flash-message module and the
    properties its specification states about it.

    Modelling choices.
    - The mapping kept under [FLASH_MESSAGES_KEY] is a Python [dict]: unique
      keys, iteration in insertion order.  It is an association list
      ([store]); iteration order decides both the tie-break of [min] and the
      order of the sequence returned by [get_all_flash_messages].
    - A stored record is itself a [dict] and may lack any of its four fields
      (the code reads two of them with [.get(..., default)] and two with
      [[...]]), hence four optional fields.
    - [time.time()], [uuid.uuid4()], [flask.has_request_context()],
      [flask.request.path] and [flask.session] are the ambient effects.  They
      are a record [world] threaded through a state-and-exception monad.
      Clock readings are integers (seconds), as in the test-suite's mocked
      clock; each call of [time.time()] consumes the next reading.
    - A Python exception ([KeyError], [ValueError]) is an outcome [Raise];
      the state reached when it is raised is kept. *)

From Stdlib Require Import String ZArith Bool Lia List Sorted.
Import ListNotations.
Open Scope string_scope.
Open Scope list_scope.
Open Scope Z_scope.

Set Implicit Arguments.

(** ** Constants of the module *)

Definition FLASH_MESSAGES_KEY : string := "_custom_flash_messages".
Definition MAX_MESSAGE_AGE : Z := 60.
Definition MAX_MESSAGES_PER_SESSION : nat := 25.

Arguments MAX_MESSAGE_AGE : simpl never.
Arguments MAX_MESSAGES_PER_SESSION : simpl never.

(** ** Data *)

(** One stored message: a dict with the keys "message", "category",
    "timestamp" and "consumed", each of which may be absent. *)
Record msg_data : Type := mk_msg_data {
  message : option string;
  category : option string;
  timestamp : option Z;
  consumed : option bool
}.

(** The dict [request_id -> msg_data], in insertion order. *)
Definition store : Type := list (string * msg_data).

(** What the retrieval functions put in the returned list: the bare message,
    or the tuple [(category, message)]. *)
Inductive item : Type :=
| Msg (m : string)
| CatMsg (c m : string).

Inductive exn : Type :=
| KeyError (key : string)
| ValueError.

Inductive outcome (A : Type) : Type :=
| Ret (a : A)
| Raise (e : exn).
Arguments Ret {A} a.
Arguments Raise {A} e.

(** The environment of a call. *)
Record world : Type := mk_world {
  request_path : option string;   (* flask.request.path; None: no request context *)
  session : option store;         (* flask.session[FLASH_MESSAGES_KEY], when set *)
  clock : nat -> Z;               (* successive results of time.time() *)
  clock_reads : nat;
  uuids : nat -> string;          (* successive results of str(uuid.uuid4()) *)
  uuid_draws : nat
}.

(** ** Python dict operations on [store] *)

Module Dict.

Section Ops.
Variable V : Type.

(** [d.get(k)] / [k in d] / [d[k]] *)
Fixpoint get (k : string) (d : list (string * V)) : option V :=
  match d with
  | [] => None
  | (k', v) :: d' => if String.eqb k' k then Some v else get k d'
  end.

Definition mem (k : string) (d : list (string * V)) : bool :=
  match get k d with Some _ => true | None => false end.

(** [d[k] = v]: an existing key keeps its place, a new key goes last. *)
Fixpoint set (k : string) (v : V) (d : list (string * V)) : list (string * V) :=
  match d with
  | [] => [(k, v)]
  | (k', v') :: d' =>
      if String.eqb k' k then (k, v) :: d' else (k', v') :: set k v d'
  end.

(** [del d[k]] *)
Definition del (k : string) (d : list (string * V)) : list (string * V) :=
  filter (fun kv => negb (String.eqb (fst kv) k)) d.

Definition keys (d : list (string * V)) : list string := map fst d.
Definition values (d : list (string * V)) : list V := map snd d.

(** The representation invariant of a dict: keys are unique. *)
Definition wf (d : list (string * V)) : Prop := NoDup (keys d).
End Ops.

End Dict.

(** Python's [min(iterable, key=f)]: the first element whose key is smallest;
    [None] stands for the [ValueError] raised on an empty iterable. *)
Definition min_by (A : Type) (f : A -> Z) (l : list A) : option A :=
  match l with
  | [] => None
  | x :: l' => Some (fold_left (fun best y => if f y <? f best then y else best) l' x)
  end.

(** [msg_data.get("timestamp", 0)] and [msg_data.get("consumed", False)] *)
Definition get_timestamp (d : msg_data) : Z :=
  match timestamp d with Some t => t | None => 0 end.

Definition get_consumed (d : msg_data) : bool :=
  match consumed d with Some b => b | None => false end.

(** [msg_data["consumed"] = True] *)
Definition set_consumed (d : msg_data) : msg_data :=
  {| message := message d; category := category d;
     timestamp := timestamp d; consumed := Some true |}.

(** [x in category_filter] *)
Definition str_in (x : string) (l : list string) : bool :=
  existsb (String.eqb x) l.

(** Truthiness of [category_filter]: [None] and [[]] are both false. *)
Definition truthy (category_filter : option (list string)) : bool :=
  match category_filter with
  | Some (_ :: _) => true
  | _ => false
  end.

Definition filter_list (category_filter : option (list string)) : list string :=
  match category_filter with Some l => l | None => [] end.

(** ** The monad of calls *)

Definition M (A : Type) : Type := world -> outcome A * world.

Definition ret (A : Type) (a : A) : M A := fun w => (Ret a, w).

Definition raise (A : Type) (e : exn) : M A := fun w => (Raise e, w).
Arguments raise {A} e.

Definition bind (A B : Type) (m : M A) (k : A -> M B) : M B :=
  fun w =>
    match m w with
    | (Ret a, w') => k a w'
    | (Raise e, w') => (Raise e, w')
    end.

Declare Scope flash_scope.
Delimit Scope flash_scope with flash.
Notation "x <- m ;; k" := (bind m (fun x => k))
  (at level 100, m at next level, right associativity) : flash_scope.
Notation "m ;;; k" := (bind m (fun _ => k))
  (at level 100, right associativity) : flash_scope.
Open Scope flash_scope.

(** *** Primitive effects *)

Definition has_request_context : M bool :=
  fun w => (Ret (match request_path w with Some _ => true | None => false end), w).

(** [flask.request.path]; only read under an active context. *)
Definition request_path_of : M string :=
  fun w => (Ret (match request_path w with Some p => p | None => "" end), w).

Definition time_time : M Z :=
  fun w =>
    (Ret (clock w (clock_reads w)),
     {| request_path := request_path w; session := session w;
        clock := clock w; clock_reads := S (clock_reads w);
        uuids := uuids w; uuid_draws := uuid_draws w |}).

Definition uuid4 : M string :=
  fun w =>
    (Ret (uuids w (uuid_draws w)),
     {| request_path := request_path w; session := session w;
        clock := clock w; clock_reads := clock_reads w;
        uuids := uuids w; uuid_draws := S (uuid_draws w) |}).

(** [flask.session.get(FLASH_MESSAGES_KEY, {})] *)
Definition session_get : M store :=
  fun w => (Ret (match session w with Some s => s | None => [] end), w).

Definition with_session (o : option store) (w : world) : world :=
  {| request_path := request_path w; session := o;
     clock := clock w; clock_reads := clock_reads w;
     uuids := uuids w; uuid_draws := uuid_draws w |}.

(** [flask.session[FLASH_MESSAGES_KEY] = messages] *)
Definition session_set (messages : store) : M unit :=
  fun w => (Ret tt, with_session (Some messages) w).

(** A computation that touches no state: it returns or raises. *)
Definition lift (A : Type) (o : outcome A) : M A := fun w => (o, w).

(** [msg_data["message"]], [msg_data["category"]] *)
Definition item_message (d : msg_data) : outcome string :=
  match message d with Some m => Ret m | None => Raise (KeyError "message") end.

Definition item_category (d : msg_data) : outcome string :=
  match category d with Some c => Ret c | None => Raise (KeyError "category") end.

(** ** The module's functions *)

Definition _get_request_id : M string :=
  ctx <- has_request_context ;;
  if negb ctx then uuid4
  else
    path <- request_path_of ;;
    request_uuid <- uuid4 ;;
    ret (path ++ ":" ++ request_uuid)%string.

Definition fresh_at (current_time : Z) (d : msg_data) : bool :=
  current_time - get_timestamp d <? MAX_MESSAGE_AGE.

Definition _cleanup_old_messages (messages : store) : M store :=
  current_time <- time_time ;;
  ret (filter (fun kv => fresh_at current_time (snd kv)) messages).

(** The key function of the eviction: [messages[k].get("timestamp", 0)]. *)
Definition timestamp_of (messages : store) (k : string) : Z :=
  match Dict.get k messages with Some d => get_timestamp d | None => 0 end.

Definition new_record (msg cat : string) (now : Z) : msg_data :=
  {| message := Some msg; category := Some cat;
     timestamp := Some now; consumed := Some false |}.

Definition flash_message (msg : string) (cat : string) (request_id : option string)
  : M string :=
  ctx <- has_request_context ;;
  if negb ctx then ret ""
  else
    request_id <- match request_id with
                  | None => _get_request_id
                  | Some r => ret r
                  end ;;
    messages <- session_get ;;
    messages <- _cleanup_old_messages messages ;;
    messages <- (if (MAX_MESSAGES_PER_SESSION <=? length messages)%nat
                 then match min_by (timestamp_of messages) (Dict.keys messages) with
                      | Some oldest_key => ret (Dict.del oldest_key messages)
                      | None => raise ValueError
                      end
                 else ret messages) ;;
    now <- time_time ;;
    session_set (Dict.set request_id (new_record msg cat now) messages) ;;;
    ret request_id.

(** [category_filter and msg_data["category"] not in category_filter] *)
Definition excluded (category_filter : option (list string)) (d : msg_data)
  : outcome bool :=
  if truthy category_filter
  then match item_category d with
       | Ret c => Ret (negb (str_in c (filter_list category_filter)))
       | Raise e => Raise e
       end
  else Ret false.

(** The element put in the result: [(category, message)] or [message]. *)
Definition render (with_categories : bool) (d : msg_data) : outcome item :=
  if with_categories
  then match item_category d with
       | Ret c => match item_message d with
                  | Ret m => Ret (CatMsg c m)
                  | Raise e => Raise e
                  end
       | Raise e => Raise e
       end
  else match item_message d with
       | Ret m => Ret (Msg m)
       | Raise e => Raise e
       end.

Definition get_flash_messages (request_id : string) (with_categories : bool)
    (category_filter : option (list string)) : M (list item) :=
  ctx <- has_request_context ;;
  if negb ctx then ret []
  else
    messages <- session_get ;;
    match Dict.get request_id messages with
    | None => ret []
    | Some msg_data =>
        let msg_data := set_consumed msg_data in
        session_set (Dict.set request_id msg_data messages) ;;;
        skip <- lift (excluded category_filter msg_data) ;;
        if skip then ret []
        else
          x <- lift (render with_categories msg_data) ;;
          ret [x]
    end.

(** The loop of [get_all_flash_messages] over [messages.items()].  It
    returns the dict as the loop leaves it (the records it appended are
    marked, in place) and the result list, or the exception that stopped
    it. *)
Fixpoint drain (with_categories : bool) (category_filter : option (list string))
    (messages : store) (result : list item) : store * outcome (list item) :=
  match messages with
  | [] => ([], Ret result)
  | (msg_id, d) :: rest =>
      let continue :=
        let (rest', o) := drain with_categories category_filter rest result in
        ((msg_id, d) :: rest', o) in
      if get_consumed d then continue
      else
        match excluded category_filter d with
        | Raise e => (messages, Raise e)
        | Ret true => continue
        | Ret false =>
            match render with_categories d with
            | Raise e => (messages, Raise e)
            | Ret x =>
                let (rest', o) :=
                  drain with_categories category_filter rest (result ++ [x]) in
                ((msg_id, set_consumed d) :: rest', o)
            end
        end
  end.

(** The records of the swept dict are the very objects held by the dict
    still stored in the session: what the loop wrote into them shows
    through the old dict. *)
Definition shared (old new : store) : store :=
  map (fun kv => match Dict.get (fst kv) new with
                 | Some d => (fst kv, d)
                 | None => kv
                 end) old.

Definition mutate_session (f : store -> store) : M unit :=
  fun w => (Ret tt, with_session (option_map f (session w)) w).

Definition get_all_flash_messages (with_categories : bool)
    (category_filter : option (list string)) : M (list item) :=
  ctx <- has_request_context ;;
  if negb ctx then ret []
  else
    old <- session_get ;;
    messages <- _cleanup_old_messages old ;;
    let (messages, o) := drain with_categories category_filter messages [] in
    match o with
    | Ret result => session_set messages ;;; ret result
    | Raise e => mutate_session (fun old => shared old messages) ;;; raise e
    end.

Definition clear_flash_messages (request_id : option string) : M unit :=
  ctx <- has_request_context ;;
  if negb ctx then ret tt
  else
    match request_id with
    | None => session_set []
    | Some r =>
        messages <- session_get ;;
        if Dict.mem r messages then session_set (Dict.del r messages) else ret tt
    end.

Definition unconsumed (d : msg_data) : bool := negb (get_consumed d).

Definition has_flash_messages (request_id : option string) : M bool :=
  ctx <- has_request_context ;;
  if negb ctx then ret false
  else
    messages <- session_get ;;
    match request_id with
    | Some r =>
        ret (match Dict.get r messages with
             | Some d => unconsumed d
             | None => false
             end)
    | None => ret (existsb unconsumed (Dict.values messages))
    end.

(** ** Specification-side definitions

    What each call leaves behind, written as functions of the state the
    call starts from. *)

(** The dict a call starts from: [flask.session.get(FLASH_MESSAGES_KEY, {})]. *)
Definition the_store (w : world) : store :=
  match session w with Some s => s | None => [] end.

(** The value of the next [time.time()]. *)
Definition now (w : world) : Z := clock w (clock_reads w).

Definition sweep (current_time : Z) (messages : store) : store :=
  filter (fun kv => fresh_at current_time (snd kv)) messages.

Definition oldest_key (messages : store) : option string :=
  min_by (timestamp_of messages) (Dict.keys messages).

Definition evict (messages : store) : store :=
  if (MAX_MESSAGES_PER_SESSION <=? length messages)%nat
  then match oldest_key messages with
       | Some k => Dict.del k messages
       | None => messages
       end
  else messages.

(** The request id [flash_message] stores under. *)
Definition used_id (request_id : option string) (w : world) : string :=
  match request_id with
  | Some r => r
  | None =>
      match request_path w with
      | Some path => (path ++ ":" ++ uuids w (uuid_draws w))%string
      | None => uuids w (uuid_draws w)
      end
  end.

Definition after_flash (msg cat : string) (request_id : option string) (w : world)
  : world :=
  {| request_path := request_path w;
     session :=
       Some (Dict.set (used_id request_id w)
               (new_record msg cat (clock w (S (clock_reads w))))
               (evict (sweep (now w) (the_store w))));
     clock := clock w;
     clock_reads := S (S (clock_reads w));
     uuids := uuids w;
     uuid_draws := match request_id with
                   | Some _ => uuid_draws w
                   | None => S (uuid_draws w)
                   end |}.

Definition after_get (request_id : string) (w : world) : world :=
  match Dict.get request_id (the_store w) with
  | Some d =>
      with_session
        (Some (Dict.set request_id (set_consumed d) (the_store w))) w
  | None => w
  end.

(** A record the loop appends: unconsumed and let through by the filter. *)
Definition picks (category_filter : option (list string)) (d : msg_data) : bool :=
  unconsumed d &&
  match excluded category_filter d with
  | Ret false => true
  | _ => false
  end.

Definition picked (category_filter : option (list string)) (messages : store)
  : store :=
  filter (fun kv => picks category_filter (snd kv)) messages.

(** The records appended are marked, the others are left as they are. *)
Definition mark (category_filter : option (list string)) (messages : store)
  : store :=
  map (fun kv => if picks category_filter (snd kv)
                 then (fst kv, set_consumed (snd kv)) else kv) messages.

Definition rendered (with_categories : bool) (messages : store) : list item :=
  flat_map (fun kv => match render with_categories (snd kv) with
                      | Ret x => [x]
                      | Raise _ => []
                      end) messages.

(** A record that carries both fields read with [[...]]. *)
Definition has_text (d : msg_data) : bool :=
  match message d, category d with
  | Some _, Some _ => true
  | _, _ => false
  end.

Definition all_text (messages : store) : Prop :=
  Forall (fun kv => has_text (snd kv) = true) messages.

Definition after_get_all (with_categories : bool)
    (category_filter : option (list string)) (w : world) : world :=
  let (messages, o) :=
    drain with_categories category_filter (sweep (now w) (the_store w)) [] in
  {| request_path := request_path w;
     session := match o with
                | Ret _ => Some messages
                | Raise _ => option_map (fun old => shared old messages) (session w)
                end;
     clock := clock w;
     clock_reads := S (clock_reads w);
     uuids := uuids w;
     uuid_draws := uuid_draws w |}.

Definition after_clear (request_id : option string) (w : world) : world :=
  match request_id with
  | None => with_session (Some []) w
  | Some r =>
      if Dict.mem r (the_store w)
      then with_session (Some (Dict.del r (the_store w))) w
      else w
  end.

(** *** Calls as data

    The five public functions, so that a property can speak of any one of
    them, and of sequences of them. *)

Inductive call : Type :=
| Flash (msg cat : string) (request_id : option string)
| Get (request_id : string) (with_categories : bool)
      (category_filter : option (list string))
| GetAll (with_categories : bool) (category_filter : option (list string))
| Clear (request_id : option string)
| Has (request_id : option string).

Definition raised (A : Type) (r : outcome A * world) : option exn * world :=
  match r with
  | (Ret _, w) => (None, w)
  | (Raise e, w) => (Some e, w)
  end.

(** The exception a call ends with, if any, and the state it leaves. *)
Definition perform (c : call) (w : world) : option exn * world :=
  match c with
  | Flash msg cat request_id => raised (flash_message msg cat request_id w)
  | Get request_id with_categories category_filter =>
      raised (get_flash_messages request_id with_categories category_filter w)
  | GetAll with_categories category_filter =>
      raised (get_all_flash_messages with_categories category_filter w)
  | Clear request_id => raised (clear_flash_messages request_id w)
  | Has request_id => raised (has_flash_messages request_id w)
  end.

(** The key a call writes a new record under, if it writes one. *)
Definition stores_under (c : call) (w : world) : option string :=
  match c with
  | Flash _ _ request_id => Some (used_id request_id w)
  | _ => None
  end.

(** Nothing is left under [k]: the key is not in the mapping, so the
    existence check is false and no later sweep-and-drain can return it. *)
Definition gone (k : string) (w : world) : Prop :=
  Dict.get k (the_store w) = None /\
  has_flash_messages (Some k) w = (Ret false, w) /\
  forall t category_filter,
    ~ In k (Dict.keys (picked category_filter (sweep t (the_store w)))).

Definition is_flash (c : call) : bool :=
  match c with
  | Flash _ _ _ => true
  | _ => false
  end.

(** A sequence of calls, one after the other. *)
Fixpoint perform_all (cs : list call) (w : world) : world :=
  match cs with
  | [] => w
  | c :: cs' => perform_all cs' (snd (perform c w))
  end.

(** Nothing is left to deliver under [k]: no record, or a consumed one. *)
Definition spent (k : string) (messages : store) : Prop :=
  match Dict.get k messages with
  | Some d => consumed d = Some true
  | None => True
  end.

(** *** A run of insertions

    [flash_message(msg, cat, request_id=rid)] for each [(rid, msg, cat)] of
    a list, in order. *)

Fixpoint flash_each (l : list (string * string * string)) (w : world) : world :=
  match l with
  | [] => w
  | (rid, msg, cat) :: l' =>
      flash_each l' (snd (flash_message msg cat (Some rid) w))
  end.

(** A call of [flash_message] reads the clock twice: for the sweep, then
    for the timestamp of the new record.  Counted from the state [w], the
    [i]-th call of a run sweeps at [sweep_time w i] and stamps [stamp w i]. *)
Definition sweep_time (w : world) (i : nat) : Z :=
  clock w (clock_reads w + 2 * i)%nat.

Definition stamp (w : world) (i : nat) : Z :=
  clock w (S (clock_reads w + 2 * i))%nat.

(** The records such a run creates, in order. *)
Fixpoint inserted (c : nat -> Z) (reads : nat) (l : list (string * string * string))
  : store :=
  match l with
  | [] => []
  | (rid, msg, cat) :: l' =>
      (rid, new_record msg cat (c (S reads))) :: inserted c (S (S reads)) l'
  end.

Definition request_ids (l : list (string * string * string)) : list string :=
  map (fun x => fst (fst x)) l.

(** The last [n] elements of a list. *)
Definition keep_last (A : Type) (n : nat) (l : list A) : list A :=
  skipn (length l - n) l.

(** Timestamps strictly increasing along the dict. *)
Definition increasing (messages : store) : Prop :=
  StronglySorted
    (fun a b => get_timestamp (snd a) < get_timestamp (snd b)) messages.

(** States the module itself can bring a session to: a session that never
    held the key, any public call, and a later request on the same session
    (another path, clock or uuid source). *)
Inductive reachable : world -> Prop :=
| reach_new (w : world) : session w = None -> reachable w
| reach_call (c : call) (w : world) : reachable w -> reachable (snd (perform c w))
| reach_request (w w' : world) :
    reachable w -> session w' = session w -> reachable w'.

(** A check that request ids are pairwise different. *)
Fixpoint distinct (l : list string) : bool :=
  match l with
  | [] => true
  | x :: l' => negb (str_in x l') && distinct l'
  end.

(** Every record of the dict is consumed. *)
Definition all_consumed (messages : store) : Prop :=
  Forall (fun kv => get_consumed (snd kv) = true) messages.

(** ** Concrete states

    A request to [/test] with a running clock, as in the test-suite. *)

Definition demo_world (messages : option store) (start : Z) : world :=
  {| request_path := Some "/test";
     session := messages;
     clock := fun n => start + Z.of_nat n;
     clock_reads := 0;
     uuids := fun n => String (Ascii.ascii_of_nat (65 + n)) "";
     uuid_draws := 0 |}.

(** The same session seen without a request context. *)
Definition no_context (w : world) : world :=
  {| request_path := None; session := session w;
     clock := clock w; clock_reads := clock_reads w;
     uuids := uuids w; uuid_draws := uuid_draws w |}.

Definition positive_1000 : msg_data := new_record "Positive message" "positive" 1000.
Definition negative_1000 : msg_data := new_record "Negative message" "negative" 1000.

(** Records as a tampered or foreign session could hold them. *)
Definition no_message : msg_data :=
  {| message := None; category := Some "positive";
     timestamp := Some 1000; consumed := Some false |}.

Definition no_timestamp : msg_data :=
  {| message := Some "Undated"; category := Some "positive";
     timestamp := None; consumed := Some false |}.

Definition no_consumed : msg_data :=
  {| message := Some "Unflagged"; category := Some "positive";
     timestamp := Some 1000; consumed := None |}.

(** Twenty-six young records, one more than [MAX_MESSAGES_PER_SESSION],
    under the keys "A" to "Z" and stamped 1000 to 1025. *)
Definition crowded : store :=
  map (fun n => (String (Ascii.ascii_of_nat (65 + n)) "",
                 new_record "Stored" "information" (1000 + Z.of_nat n)))
      (seq 0 26).

(** Twenty-six requests to insert, under the keys "A" to "Z". *)
Definition alphabet : list (string * string * string) :=
  map (fun n => (String (Ascii.ascii_of_nat (65 + n)) "", "Text", "information"))
      (seq 0 26).

(** The mocked clock of [test_message_cleanup]: 1000 during the first call
    of [flash_message], 1400 from then on. *)
Definition mocked_world : world :=
  {| request_path := Some "/test";
     session := None;
     clock := fun n => if (n <? 2)%nat then 1000 else 1400;
     clock_reads := 0;
     uuids := fun n => String (Ascii.ascii_of_nat (65 + n)) "";
     uuid_draws := 0 |}.

(** A mapping at capacity: twenty-five records under the keys "A" to "Y",
    stamped 1 to 25, except the one under "M", which has no timestamp. *)
Definition full_with_undated : store :=
  map (fun n => (String (Ascii.ascii_of_nat (65 + n)) "",
                 if Nat.eqb n 12 then no_timestamp
                 else new_record "Stored" "information" (1 + Z.of_nat n)))
      (seq 0 25).

(** ** Facts about dicts *)

Module DictFacts.
Import Dict.

Section Facts.
Variable V : Type.
Implicit Types (d : list (string * V)) (k : string) (v : V).

Lemma get_set_eq k v d : get k (set k v d) = Some v.
Proof.
  induction d as [|[k' v'] d IH]; simpl.
  - now rewrite String.eqb_refl.
  - destruct (String.eqb k' k) eqn:E; simpl.
    + now rewrite String.eqb_refl.
    + now rewrite E.
Qed.

Lemma get_set_ne k k' v d : k <> k' -> get k' (set k v d) = get k' d.
Proof.
  intros Hne. induction d as [|[k0 v0] d IH]; simpl.
  - apply String.eqb_neq in Hne. now rewrite Hne.
  - destruct (String.eqb k0 k) eqn:E; simpl.
    + apply String.eqb_eq in E. subst k0.
      apply String.eqb_neq in Hne. now rewrite Hne.
    + now rewrite IH.
Qed.

Lemma get_In k v d : get k d = Some v -> In (k, v) d.
Proof.
  induction d as [|[k' v'] d IH]; simpl; [discriminate|].
  destruct (String.eqb k' k) eqn:E.
  - apply String.eqb_eq in E. intros [= ->]. subst. now left.
  - intros H. right. auto.
Qed.

Lemma get_None_keys k d : get k d = None <-> ~ In k (keys d).
Proof.
  induction d as [|[k' v'] d IH]; simpl.
  - tauto.
  - destruct (String.eqb k' k) eqn:E.
    + apply String.eqb_eq in E. split; [discriminate | intros H; exfalso; auto].
    + apply String.eqb_neq in E. rewrite IH. tauto.
Qed.

Lemma In_get k v d : wf d -> In (k, v) d -> get k d = Some v.
Proof.
  unfold wf. induction d as [|[k' v'] d IH]; simpl; [tauto|].
  intros Hnd [H|H].
  - inversion H; subst. now rewrite String.eqb_refl.
  - inversion Hnd as [|? ? Hnotin Hnd']; subst.
    destruct (String.eqb k' k) eqn:E.
    + apply String.eqb_eq in E. subst k'. exfalso. apply Hnotin.
      change k with (fst (k, v)). now apply in_map.
    + auto.
Qed.

Lemma length_set_le k v d : (length (set k v d) <= S (length d))%nat.
Proof.
  induction d as [|[k' v'] d IH]; simpl; [lia|].
  destruct (String.eqb k' k); simpl; lia.
Qed.

Lemma length_set_mem k v d :
  get k d <> None -> length (set k v d) = length d.
Proof.
  induction d as [|[k' v'] d IH]; simpl; [congruence|].
  destruct (String.eqb k' k); simpl; auto.
Qed.

Lemma length_set_new k v d :
  get k d = None -> length (set k v d) = S (length d).
Proof.
  induction d as [|[k' v'] d IH]; simpl; [reflexivity|].
  destruct (String.eqb k' k); simpl; [discriminate | auto].
Qed.

Lemma keys_set_new k v d : get k d = None -> keys (set k v d) = keys d ++ [k].
Proof.
  induction d as [|[k' v'] d IH]; simpl; [reflexivity|].
  destruct (String.eqb k' k); simpl; [discriminate|].
  intros H. now rewrite IH.
Qed.

Lemma keys_set_mem k v d : get k d <> None -> keys (set k v d) = keys d.
Proof.
  induction d as [|[k' v'] d IH]; simpl; [congruence|].
  destruct (String.eqb k' k) eqn:E; simpl.
  - apply String.eqb_eq in E. now subst.
  - intros H. now rewrite IH.
Qed.

Lemma wf_set k v d : wf d -> wf (set k v d).
Proof.
  unfold wf. intros Hnd. destruct (get k d) eqn:G.
  - rewrite keys_set_mem; [assumption | congruence].
  - rewrite keys_set_new by assumption.
    apply get_None_keys in G.
    apply NoDup_rev in Hnd. rewrite <- (rev_involutive (keys d ++ [k])).
    apply NoDup_rev. rewrite rev_app_distr. simpl. constructor; [|assumption].
    now rewrite <- in_rev.
Qed.

(** Filtering, which both the sweep and [del] are. *)
Lemma keys_filter_incl (P : string * V -> bool) d k :
  In k (keys (filter P d)) -> In k (keys d).
Proof.
  unfold keys. rewrite !in_map_iff. intros [x [Hx Hin]].
  apply filter_In in Hin. exists x. tauto.
Qed.

Lemma wf_filter (P : string * V -> bool) d : wf d -> wf (filter P d).
Proof.
  unfold wf. induction d as [|[k' v'] d IH]; simpl; [auto|].
  intros Hnd. inversion Hnd; subst.
  destruct (P (k', v')); simpl; auto.
  constructor; auto. intros Hin. apply keys_filter_incl in Hin. auto.
Qed.

Lemma get_filter (P : string * V -> bool) d k :
  wf d ->
  get k (filter P d) =
  match get k d with
  | Some v => if P (k, v) then Some v else None
  | None => None
  end.
Proof.
  unfold wf. induction d as [|[k' v'] d IH]; simpl; [reflexivity|].
  intros Hnd. inversion Hnd as [|? ? Hnotin Hnd']; subst.
  destruct (String.eqb k' k) eqn:E.
  - apply String.eqb_eq in E. subst k'.
    destruct (P (k, v')) eqn:HP; simpl.
    + now rewrite String.eqb_refl.
    + apply get_None_keys. intros Hin. apply keys_filter_incl in Hin. auto.
  - destruct (P (k', v')); simpl; [rewrite E|]; auto.
Qed.

Lemma get_del_eq k d : get k (del k d) = None.
Proof.
  unfold del. induction d as [|[k' v'] d IH]; simpl; [reflexivity|].
  destruct (String.eqb k' k) eqn:E; simpl; [assumption|].
  now rewrite E.
Qed.

Lemma get_del_ne k k' d : k <> k' -> get k' (del k d) = get k' d.
Proof.
  intros Hne. unfold del. induction d as [|[k0 v0] d IH]; simpl; [reflexivity|].
  destruct (String.eqb k0 k) eqn:E; simpl.
  - apply String.eqb_eq in E. subst k0.
    apply String.eqb_neq in Hne. now rewrite Hne.
  - now rewrite IH.
Qed.

Lemma wf_del k d : wf d -> wf (del k d).
Proof. apply wf_filter. Qed.

Lemma length_del_le k d : (length (del k d) <= length d)%nat.
Proof. apply filter_length_le. Qed.

Lemma length_del_mem k d :
  In k (keys d) -> (S (length (del k d)) <= length d)%nat.
Proof.
  unfold del. induction d as [|[k' v'] d IH]; simpl; [tauto|].
  destruct (String.eqb k' k) eqn:E; simpl.
  - intros _. pose proof (filter_length_le (fun kv => negb (String.eqb (fst kv) k)) d).
    lia.
  - apply String.eqb_neq in E. intros [H|H]; [congruence|].
    apply IH in H. lia.
Qed.

Lemma length_del_wf k d :
  wf d -> In k (keys d) -> S (length (del k d)) = length d.
Proof.
  unfold wf, del. induction d as [|[k' v'] d IH]; simpl; [tauto|].
  intros Hnd Hin. inversion Hnd as [|? ? Hnotin Hnd']; subst.
  destruct (String.eqb k' k) eqn:E; simpl.
  - apply String.eqb_eq in E. subst k'. f_equal.
    clear IH Hin Hnd Hnd'. induction d as [|[k0 v0] d IH]; simpl; [reflexivity|].
    simpl in Hnotin. destruct (String.eqb k0 k) eqn:E0; simpl.
    + apply String.eqb_eq in E0. tauto.
    + f_equal. apply IH. tauto.
  - apply String.eqb_neq in E. destruct Hin as [H|H]; [congruence|].
    f_equal. auto.
Qed.
End Facts.

End DictFacts.

(** ** Running the calls *)

Lemma min_by_some (A : Type) (f : A -> Z) (l : list A) :
  l <> [] -> exists x, min_by f l = Some x.
Proof. destruct l; [congruence | simpl; eauto]. Qed.

(** Unfolds the monad and the primitive effects, and nothing else. *)
Ltac run_effects :=
  cbv beta iota zeta delta
    [bind ret raise lift has_request_context request_path_of session_get
     session_set mutate_session time_time uuid4 with_session
     request_path session clock clock_reads uuids uuid_draws
     the_store now used_id negb option_map].

Lemma flash_message_run msg cat request_id w path :
  request_path w = Some path ->
  flash_message msg cat request_id w
  = (Ret (used_id request_id w), after_flash msg cat request_id w).
Proof.
  intros Hctx. destruct w as [rp s c cr u ud]. simpl in Hctx. subst rp.
  unfold flash_message, after_flash, _get_request_id, _cleanup_old_messages,
    evict, oldest_key, sweep.
  destruct request_id as [r|]; run_effects;
    match goal with
    | |- context [(MAX_MESSAGES_PER_SESSION <=? length ?l)%nat] =>
        destruct (MAX_MESSAGES_PER_SESSION <=? length l)%nat eqn:Hfull;
        [destruct (min_by (timestamp_of l) (Dict.keys l)) eqn:Hmin;
         [reflexivity
         |destruct l; [discriminate Hfull | discriminate Hmin]]
        |reflexivity]
    end.
Qed.

Lemma get_flash_messages_run request_id with_categories category_filter w path d :
  request_path w = Some path ->
  Dict.get request_id (the_store w) = Some d ->
  get_flash_messages request_id with_categories category_filter w
  = (match excluded category_filter (set_consumed d) with
     | Ret true => Ret []
     | Ret false =>
         match render with_categories (set_consumed d) with
         | Ret x => Ret [x]
         | Raise e => Raise e
         end
     | Raise e => Raise e
     end,
     after_get request_id w).
Proof.
  intros Hctx Hget.
  unfold get_flash_messages, after_get, has_request_context, session_get,
    session_set, bind, ret, lift.
  rewrite Hctx; simpl. fold (the_store w). rewrite Hget.
  destruct (excluded category_filter (set_consumed d)) as [[|]|e]; try reflexivity.
  destruct (render with_categories (set_consumed d)); reflexivity.
Qed.

Lemma get_flash_messages_absent request_id with_categories category_filter w :
  Dict.get request_id (the_store w) = None ->
  get_flash_messages request_id with_categories category_filter w = (Ret [], w).
Proof.
  intros Hget.
  unfold get_flash_messages, has_request_context, session_get, bind, ret.
  destruct (request_path w); simpl; [|reflexivity].
  fold (the_store w). now rewrite Hget.
Qed.

Lemma has_flash_messages_run request_id w path :
  request_path w = Some path ->
  has_flash_messages request_id w
  = (Ret (match request_id with
          | Some r =>
              match Dict.get r (the_store w) with
              | Some d => unconsumed d
              | None => false
              end
          | None => existsb unconsumed (Dict.values (the_store w))
          end), w).
Proof.
  intros Hctx.
  unfold has_flash_messages, has_request_context, session_get, bind, ret.
  rewrite Hctx; simpl. destruct request_id; reflexivity.
Qed.

Lemma excluded_set_consumed category_filter d :
  excluded category_filter (set_consumed d) = excluded category_filter d.
Proof. reflexivity. Qed.

Lemma render_set_consumed with_categories d :
  render with_categories (set_consumed d) = render with_categories d.
Proof. reflexivity. Qed.

Lemma drain_ret with_categories category_filter messages :
  forall result messages' result',
    drain with_categories category_filter messages result
    = (messages', Ret result') ->
    messages' = mark category_filter messages /\
    result' = result ++ rendered with_categories (picked category_filter messages).
Proof.
  induction messages as [|[k d] rest IH]; intros result messages' result' H;
    simpl in H.
  - inversion H; subst. simpl. now rewrite app_nil_r.
  - unfold mark, picked, picks, unconsumed in *. simpl.
    destruct (get_consumed d); simpl.
    + destruct (drain with_categories category_filter rest result) as [r o] eqn:E.
      inversion H; subst. apply IH in E as [-> ->]. auto.
    + destruct (excluded category_filter d) as [[|]|e]; simpl.
      * destruct (drain with_categories category_filter rest result) as [r o] eqn:E.
        inversion H; subst. apply IH in E as [-> ->]. auto.
      * destruct (render with_categories d) as [x|e]; [|discriminate].
        destruct (drain with_categories category_filter rest (result ++ [x]))
          as [r o] eqn:E.
        inversion H; subst. apply IH in E as [-> ->].
        now rewrite <- app_assoc.
      * discriminate.
Qed.

Lemma excluded_text category_filter d :
  has_text d = true -> exists b, excluded category_filter d = Ret b.
Proof.
  unfold has_text, excluded, item_category.
  destruct (message d); [|discriminate]. destruct (category d); [|discriminate].
  destruct (truthy category_filter); eauto.
Qed.

Lemma render_text with_categories d :
  has_text d = true -> exists x, render with_categories d = Ret x.
Proof.
  unfold has_text, render, item_category, item_message.
  destruct (message d); [|discriminate]. destruct (category d); [|discriminate].
  destruct with_categories; eauto.
Qed.

Lemma drain_total with_categories category_filter messages :
  all_text messages ->
  forall result, exists result',
    drain with_categories category_filter messages result
    = (mark category_filter messages, Ret result').
Proof.
  unfold all_text. induction 1 as [|[k d] rest Hd Hrest IH]; intros result; simpl.
  - eauto.
  - simpl in Hd. unfold picks, unconsumed.
    destruct (excluded_text category_filter d Hd) as [b Hb].
    destruct (render_text with_categories d Hd) as [x Hx].
    rewrite Hb, Hx.
    destruct (get_consumed d); simpl.
    + destruct (IH result) as [r' ->]. eauto.
    + destruct b.
      * destruct (IH result) as [r' ->]. eauto.
      * destruct (IH (result ++ [x])) as [r' ->]. eauto.
Qed.

(** Whatever the loop does, and wherever it stops, it only ever turns a
    record into its consumed version. *)
Lemma drain_marks_only with_categories category_filter messages :
  forall result,
    Forall2 (fun kv kv' => fst kv' = fst kv /\
                           (snd kv' = snd kv \/ snd kv' = set_consumed (snd kv)))
      messages (fst (drain with_categories category_filter messages result)).
Proof.
  assert (Hsame : forall l : store,
             Forall2 (fun kv kv' => fst kv' = fst kv /\
                        (snd kv' = snd kv \/ snd kv' = set_consumed (snd kv))) l l).
  { induction l; constructor; auto. }
  induction messages as [|[k d] rest IH]; intros result; simpl.
  - constructor.
  - destruct (get_consumed d).
    + specialize (IH result).
      destruct (drain with_categories category_filter rest result); simpl in *.
      constructor; auto.
    + destruct (excluded category_filter d) as [[|]|e]; simpl.
      * specialize (IH result).
        destruct (drain with_categories category_filter rest result); simpl in *.
        constructor; auto.
      * destruct (render with_categories d) as [x|e]; simpl.
        -- specialize (IH (result ++ [x])).
           destruct (drain with_categories category_filter rest (result ++ [x]));
             simpl in *.
           constructor; auto.
        -- apply Hsame.
      * apply Hsame.
Qed.

Lemma get_all_flash_messages_run with_categories category_filter w path :
  request_path w = Some path ->
  get_all_flash_messages with_categories category_filter w
  = (snd (drain with_categories category_filter (sweep (now w) (the_store w)) []),
     after_get_all with_categories category_filter w).
Proof.
  intros Hctx. destruct w as [rp s c cr u ud]. simpl in Hctx. subst rp.
  unfold get_all_flash_messages, after_get_all, _cleanup_old_messages, sweep.
  run_effects.
  match goal with
  | |- context [drain ?a ?b ?l ?r] => destruct (drain a b l r) as [m [res|e]]
  end; reflexivity.
Qed.

Lemma clear_flash_messages_run request_id w path :
  request_path w = Some path ->
  clear_flash_messages request_id w = (Ret tt, after_clear request_id w).
Proof.
  intros Hctx.
  unfold clear_flash_messages, after_clear, has_request_context, session_get,
    session_set, bind, ret.
  rewrite Hctx; simpl. destruct request_id as [r|]; [|reflexivity].
  fold (the_store w). destruct (Dict.mem r (the_store w)); reflexivity.
Qed.


(** *** Small facts *)

Lemma str_in_false x l : ~ In x l -> str_in x l = false.
Proof.
  unfold str_in. induction l as [|y l IH]; simpl; [reflexivity|].
  intros H. destruct (String.eqb x y) eqn:E.
  - apply String.eqb_eq in E. subst y. tauto.
  - simpl. apply IH. tauto.
Qed.

Lemma str_in_true x l : In x l -> str_in x l = true.
Proof.
  unfold str_in. intros H. apply existsb_exists. exists x.
  split; [assumption | apply String.eqb_refl].
Qed.

Lemma the_store_after_get request_id w d :
  Dict.get request_id (the_store w) = Some d ->
  the_store (after_get request_id w)
  = Dict.set request_id (set_consumed d) (the_store w).
Proof. intros H. unfold after_get. rewrite H. reflexivity. Qed.

(** *** The smallest timestamp *)

Lemma fold_min_In (A : Type) (f : A -> Z) (l : list A) :
  forall x,
    In (fold_left (fun best y => if f y <? f best then y else best) l x) (x :: l).
Proof.
  induction l as [|y l IH]; intros x; simpl.
  - now left.
  - destruct (IH (if f y <? f x then y else x)) as [H|H].
    + destruct (f y <? f x); rewrite <- H; auto.
    + auto.
Qed.

Lemma fold_min_le (A : Type) (f : A -> Z) (l : list A) :
  forall x z,
    In z (x :: l) ->
    f (fold_left (fun best y => if f y <? f best then y else best) l x) <= f z.
Proof.
  induction l as [|y l IH]; intros x z Hz; simpl.
  - destruct Hz as [<-|[]]. lia.
  - destruct (f y <? f x) eqn:E.
    + apply Z.ltb_lt in E. destruct Hz as [<-|[<-|Hz]].
      * specialize (IH y y (or_introl eq_refl)). lia.
      * apply IH. now left.
      * apply IH. now right.
    + apply Z.ltb_ge in E. destruct Hz as [<-|[<-|Hz]].
      * apply IH. now left.
      * specialize (IH x x (or_introl eq_refl)). lia.
      * apply IH. now right.
Qed.

Lemma fold_min_first (A : Type) (f : A -> Z) (l : list A) :
  forall x,
    (forall y, In y l -> f x <= f y) ->
    fold_left (fun best y => if f y <? f best then y else best) l x = x.
Proof.
  induction l as [|y l IH]; intros x Hx; simpl; [reflexivity|].
  assert (E : (f y <? f x) = false).
  { apply Z.ltb_ge. apply Hx. now left. }
  rewrite E. apply IH. intros z Hz. apply Hx. now right.
Qed.

Lemma min_by_In (A : Type) (f : A -> Z) (l : list A) (x : A) :
  min_by f l = Some x -> In x l.
Proof.
  destruct l as [|y l]; simpl; [discriminate|]. intros [= <-]. apply fold_min_In.
Qed.

Lemma min_by_le (A : Type) (f : A -> Z) (l : list A) (x : A) :
  min_by f l = Some x -> forall z, In z l -> f x <= f z.
Proof.
  destruct l as [|y l]; simpl; [discriminate|]. intros [= <-] z Hz.
  now apply fold_min_le.
Qed.

Lemma min_by_head (A : Type) (f : A -> Z) (x : A) (l : list A) :
  (forall y, In y l -> f x <= f y) -> min_by f (x :: l) = Some x.
Proof. intros H. simpl. f_equal. now apply fold_min_first. Qed.

Lemma oldest_key_In messages k :
  oldest_key messages = Some k -> In k (Dict.keys messages).
Proof. apply min_by_In. Qed.

(** *** Length and keys under the sweep, the eviction and the marking *)

Lemma length_sweep t messages : (length (sweep t messages) <= length messages)%nat.
Proof. apply filter_length_le. Qed.

Lemma length_evict messages :
  (length (evict messages) <= length messages)%nat /\
  ((MAX_MESSAGES_PER_SESSION <= length messages)%nat ->
   (S (length (evict messages)) <= length messages)%nat).
Proof.
  unfold evict.
  destruct (MAX_MESSAGES_PER_SESSION <=? length messages)%nat eqn:E.
  - destruct (oldest_key messages) as [k|] eqn:Hk.
    + apply oldest_key_In in Hk.
      pose proof (DictFacts.length_del_mem k messages Hk). split; [lia|auto].
    + unfold oldest_key in Hk. destruct messages; [discriminate E | discriminate Hk].
  - apply Nat.leb_gt in E. split; [lia|]. intros. lia.
Qed.

Lemma wf_sweep t messages : Dict.wf messages -> Dict.wf (sweep t messages).
Proof. apply DictFacts.wf_filter. Qed.

Lemma wf_evict messages : Dict.wf messages -> Dict.wf (evict messages).
Proof.
  intros H. unfold evict.
  destruct (MAX_MESSAGES_PER_SESSION <=? length messages)%nat; [|assumption].
  destruct (oldest_key messages); [now apply DictFacts.wf_del | assumption].
Qed.

Lemma get_sweep t messages k :
  Dict.wf messages ->
  Dict.get k (sweep t messages)
  = match Dict.get k messages with
    | Some d => if fresh_at t d then Some d else None
    | None => None
    end.
Proof. intros H. unfold sweep. now rewrite DictFacts.get_filter. Qed.

(** A key of the evicted dict holds what it held before. *)
Lemma get_evict messages k d :
  Dict.get k (evict messages) = Some d -> Dict.get k messages = Some d.
Proof.
  unfold evict.
  destruct (MAX_MESSAGES_PER_SESSION <=? length messages)%nat; [|auto].
  destruct (oldest_key messages) as [k0|]; [|auto].
  destruct (String.eqb k0 k) eqn:E.
  - apply String.eqb_eq in E. subst. now rewrite DictFacts.get_del_eq.
  - apply String.eqb_neq in E. now rewrite DictFacts.get_del_ne.
Qed.

Lemma keys_mark category_filter messages :
  Dict.keys (mark category_filter messages) = Dict.keys messages.
Proof.
  unfold mark, Dict.keys. rewrite map_map. apply map_ext.
  intros [k d]. simpl. now destruct (picks category_filter d).
Qed.

Lemma get_mark category_filter messages k :
  Dict.get k (mark category_filter messages)
  = option_map (fun d => if picks category_filter d then set_consumed d else d)
      (Dict.get k messages).
Proof.
  induction messages as [|[k' d] rest IH]; simpl; [reflexivity|].
  destruct (picks category_filter d) eqn:P; simpl;
    destruct (String.eqb k' k); simpl; try rewrite P; auto.
Qed.

Lemma keys_shared old new : Dict.keys (shared old new) = Dict.keys old.
Proof.
  unfold shared, Dict.keys. rewrite map_map. apply map_ext.
  intros [k d]. simpl. now destruct (Dict.get k new).
Qed.

Lemma get_shared old new k :
  Dict.get k (shared old new)
  = match Dict.get k old with
    | Some d => match Dict.get k new with Some d' => Some d' | None => Some d end
    | None => None
    end.
Proof.
  induction old as [|[k' d] rest IH]; simpl; [reflexivity|].
  destruct (Dict.get k' new) as [d'|] eqn:G; simpl;
    destruct (String.eqb k' k) eqn:E; auto;
    apply String.eqb_eq in E; subst; now rewrite G.
Qed.

(** Reading a key through a list that was rewritten record by record. *)
Lemma get_Forall2 (R : msg_data -> msg_data -> Prop) (l l' : store) :
  Forall2 (fun kv kv' => fst kv' = fst kv /\ R (snd kv) (snd kv')) l l' ->
  forall k,
    match Dict.get k l, Dict.get k l' with
    | Some d, Some d' => R d d'
    | None, None => True
    | _, _ => False
    end.
Proof.
  induction 1 as [|[k1 d1] [k2 d2] l l' [Hk HR] _ IH]; intros k; simpl.
  - exact I.
  - simpl in Hk, HR. subst k2. destruct (String.eqb k1 k); [assumption | apply IH].
Qed.

(** *** One call, seen from one key *)

Lemma snd_raised (A : Type) (r : outcome A * world) : snd (raised r) = snd r.
Proof. destruct r as [[a|e] w]; reflexivity. Qed.

Lemma perform_no_context c w :
  request_path w = None -> perform c w = (None, w).
Proof.
  intros Hctx.
  destruct c; unfold perform, flash_message, get_flash_messages,
    get_all_flash_messages, clear_flash_messages, has_flash_messages,
    has_request_context, bind, ret; rewrite Hctx; reflexivity.
Qed.

Lemma the_store_after_flash msg cat request_id w :
  the_store (after_flash msg cat request_id w)
  = Dict.set (used_id request_id w)
      (new_record msg cat (clock w (S (clock_reads w))))
      (evict (sweep (now w) (the_store w))).
Proof. reflexivity. Qed.

Lemma get_after_flash_other msg cat request_id w k :
  Dict.wf (the_store w) ->
  used_id request_id w <> k ->
  Dict.get k (the_store (after_flash msg cat request_id w))
  = match Dict.get k (evict (sweep (now w) (the_store w))) with
    | Some d => Some d
    | None => None
    end /\
  forall d',
    Dict.get k (the_store (after_flash msg cat request_id w)) = Some d' ->
    Dict.get k (the_store w) = Some d' /\ fresh_at (now w) d' = true.
Proof.
  intros Hwf Hne. rewrite the_store_after_flash.
  rewrite DictFacts.get_set_ne by assumption. split.
  - now destruct (Dict.get k (evict (sweep (now w) (the_store w)))).
  - intros d' H. apply get_evict in H. rewrite get_sweep in H by assumption.
    destruct (Dict.get k (the_store w)) as [d|]; [|discriminate].
    destruct (fresh_at (now w) d) eqn:F; [|discriminate].
    inversion H; subst. auto.
Qed.

(** After [get_all_flash_messages], returned or raised, a key holds the
    record it held, or that record marked consumed, or nothing. *)
Lemma get_after_get_all with_categories category_filter w k d' :
  Dict.wf (the_store w) ->
  Dict.get k (the_store (after_get_all with_categories category_filter w)) = Some d' ->
  exists d, Dict.get k (the_store w) = Some d /\
            (d' = d \/ d' = set_consumed d).
Proof.
  intros Hwf. unfold after_get_all.
  pose proof (drain_marks_only with_categories category_filter
                (sweep (now w) (the_store w)) []) as HF.
  destruct (drain with_categories category_filter (sweep (now w) (the_store w)) [])
    as [m [res|e]] eqn:E; simpl in HF.
  - unfold the_store at 1. simpl. intros H.
    pose proof (get_Forall2 (fun d d' => d' = d \/ d' = set_consumed d) HF k) as HR.
    rewrite H in HR. rewrite get_sweep in HR by assumption.
    destruct (Dict.get k (the_store w)) as [d|]; [|contradiction].
    destruct (fresh_at (now w) d); [|contradiction]. eauto.
  - unfold the_store at 1. simpl. unfold the_store in *.
    destruct (session w) as [s|]; simpl; [|discriminate].
    rewrite get_shared. intros H.
    destruct (Dict.get k s) as [d|] eqn:G; [|discriminate].
    exists d. split; [reflexivity|].
    pose proof (get_Forall2 (fun d d' => d' = d \/ d' = set_consumed d) HF k) as HR.
    rewrite get_sweep in HR by assumption. rewrite G in HR.
    destruct (Dict.get k m) as [d0|].
    + inversion H; subst. destruct (fresh_at (now w) d);
        [assumption | contradiction].
    + inversion H; auto.
Qed.

(** A record found under [k] after a call that stored nothing under [k]
    was there before the call, as it is or not yet marked consumed. *)
Lemma perform_origin (w : world) (c : call) (k : string) (d' : msg_data) :
  Dict.wf (the_store w) ->
  stores_under c w <> Some k ->
  Dict.get k (the_store (snd (perform c w))) = Some d' ->
  exists d, Dict.get k (the_store w) = Some d /\
            (d' = d \/ d' = set_consumed d).
Proof.
  intros Hwf Hother. destruct (request_path w) as [path|] eqn:Hctx.
  2:{ rewrite perform_no_context by assumption. cbn [snd]. eauto. }
  destruct c as [msg cat rid | rid wc F | wc F | rid | rid];
    cbn [perform]; rewrite snd_raised.
  - rewrite flash_message_run with (path := path) by assumption. cbn [snd].
    assert (Hne : used_id rid w <> k) by (simpl in Hother; congruence).
    intros G. apply get_after_flash_other in G as [G _]; eauto.
  - destruct (Dict.get rid (the_store w)) as [d0|] eqn:G0.
    + rewrite get_flash_messages_run with (path := path) (d := d0) by assumption.
      cbn [snd]. rewrite the_store_after_get with (d := d0) by assumption.
      destruct (String.eqb rid k) eqn:E.
      * apply String.eqb_eq in E. subst rid. rewrite DictFacts.get_set_eq.
        intros [= <-]. eauto.
      * apply String.eqb_neq in E. rewrite DictFacts.get_set_ne by assumption.
        eauto.
    + rewrite get_flash_messages_absent by assumption. cbn [snd]. eauto.
  - rewrite get_all_flash_messages_run with (path := path) by assumption.
    cbn [snd]. now apply get_after_get_all.
  - rewrite clear_flash_messages_run with (path := path) by assumption.
    cbn [snd]. unfold after_clear.
    destruct rid as [r|]; [|discriminate].
    destruct (Dict.mem r (the_store w)); [|eauto].
    unfold the_store at 1. cbn [session with_session].
    destruct (String.eqb r k) eqn:E.
    + apply String.eqb_eq in E. subst r. now rewrite DictFacts.get_del_eq.
    + apply String.eqb_neq in E. rewrite DictFacts.get_del_ne by assumption.
      eauto.
  - rewrite has_flash_messages_run with (path := path) by assumption.
    cbn [snd]. eauto.
Qed.

(** *** When a call can raise *)

Lemma all_text_get messages k d :
  all_text messages -> Dict.get k messages = Some d -> has_text d = true.
Proof.
  unfold all_text. rewrite Forall_forall. intros Hall Hget.
  apply DictFacts.get_In in Hget. exact (Hall (k, d) Hget).
Qed.

Lemma all_text_sweep t messages : all_text messages -> all_text (sweep t messages).
Proof.
  unfold all_text, sweep. rewrite !Forall_forall. intros Hall kv Hin.
  apply filter_In in Hin. apply Hall. tauto.
Qed.

Lemma has_text_set_consumed d : has_text (set_consumed d) = has_text d.
Proof. reflexivity. Qed.

Lemma flash_message_returns msg cat request_id w :
  exists rid, fst (flash_message msg cat request_id w) = Ret rid.
Proof.
  destruct (request_path w) as [path|] eqn:Hctx.
  - rewrite flash_message_run with (path := path) by assumption.
    cbn [fst]. eauto.
  - unfold flash_message, has_request_context, bind, ret. rewrite Hctx.
    cbn. eauto.
Qed.

Lemma get_flash_messages_returns request_id with_categories category_filter w :
  all_text (the_store w) ->
  exists res,
    fst (get_flash_messages request_id with_categories category_filter w) = Ret res.
Proof.
  intros Hall. destruct (request_path w) as [path|] eqn:Hctx.
  - destruct (Dict.get request_id (the_store w)) as [d|] eqn:G.
    + rewrite get_flash_messages_run with (path := path) (d := d) by assumption.
      apply all_text_get with (k := request_id) (d := d) in Hall; [|assumption].
      destruct (excluded_text category_filter (set_consumed d) Hall) as [b ->].
      destruct (render_text with_categories (set_consumed d) Hall) as [x ->].
      destruct b; simpl; eauto.
    + rewrite get_flash_messages_absent by assumption. simpl. eauto.
  - unfold get_flash_messages, has_request_context, bind, ret. rewrite Hctx.
    simpl. eauto.
Qed.

Lemma get_all_flash_messages_returns with_categories category_filter w :
  all_text (the_store w) ->
  exists res,
    fst (get_all_flash_messages with_categories category_filter w) = Ret res.
Proof.
  intros Hall. destruct (request_path w) as [path|] eqn:Hctx.
  - rewrite get_all_flash_messages_run with (path := path) by assumption.
    destruct (drain_total with_categories category_filter
                (all_text_sweep (now w) Hall) []) as [res ->].
    simpl. eauto.
  - unfold get_all_flash_messages, has_request_context, bind, ret. rewrite Hctx.
    simpl. eauto.
Qed.

(** *** The lazy sweep *)

Lemma _cleanup_old_messages_run messages w :
  fst (_cleanup_old_messages messages w) = Ret (sweep (now w) messages).
Proof. reflexivity. Qed.

Lemma sweep_In t messages kv :
  In kv (sweep t messages) <->
  In kv messages /\ t - get_timestamp (snd kv) < MAX_MESSAGE_AGE.
Proof.
  unfold sweep, fresh_at. rewrite filter_In, Z.ltb_lt. reflexivity.
Qed.

Lemma fresh_at_false t d :
  t - get_timestamp d >= MAX_MESSAGE_AGE -> fresh_at t d = false.
Proof. intros H. unfold fresh_at. apply Z.ltb_ge. lia. Qed.

Lemma absent_gone k w :
  Dict.get k (the_store w) = None -> gone k w.
Proof.
  intros Hnone. repeat split.
  - assumption.
  - unfold has_flash_messages, has_request_context, session_get, bind, ret.
    destruct (request_path w); simpl; [|reflexivity].
    fold (the_store w). now rewrite Hnone.
  - intros t F Hin. apply DictFacts.get_None_keys in Hnone. apply Hnone.
    unfold picked, sweep in Hin.
    now apply DictFacts.keys_filter_incl, DictFacts.keys_filter_incl in Hin.
Qed.

Lemma get_all_flash_messages_ret with_categories category_filter w path res w' :
  request_path w = Some path ->
  get_all_flash_messages with_categories category_filter w = (Ret res, w') ->
  the_store w' = mark category_filter (sweep (now w) (the_store w)) /\
  res = rendered with_categories
          (picked category_filter (sweep (now w) (the_store w))) /\
  request_path w' = Some path /\
  now w' = clock w (S (clock_reads w)).
Proof.
  intros Hctx. rewrite get_all_flash_messages_run with (path := path) by assumption.
  unfold after_get_all.
  destruct (drain with_categories category_filter (sweep (now w) (the_store w)) [])
    as [m o] eqn:E.
  cbn [snd]. intros [= -> <-].
  apply drain_ret in E as [-> ->]. repeat split. exact Hctx.
Qed.

(** *** What every call preserves *)

Lemma Forall_set (P : string * msg_data -> Prop) k d (messages : store) :
  P (k, d) -> Forall P messages -> Forall P (Dict.set k d messages).
Proof.
  intros Hd. induction 1 as [|[k' d'] rest Hx Hrest IH]; simpl.
  - constructor; [assumption | constructor].
  - destruct (String.eqb k' k); constructor; assumption.
Qed.

Lemma Forall_filter (A : Type) (P : A -> Prop) (f : A -> bool) (l : list A) :
  Forall P l -> Forall P (filter f l).
Proof.
  rewrite !Forall_forall. intros H x Hin. apply filter_In in Hin. apply H. tauto.
Qed.

Lemma all_text_evict messages : all_text messages -> all_text (evict messages).
Proof.
  intros H. unfold evict.
  destruct (MAX_MESSAGES_PER_SESSION <=? length messages)%nat; [|assumption].
  destruct (oldest_key messages); [|assumption].
  now apply Forall_filter.
Qed.

Lemma all_text_mark category_filter messages :
  all_text messages -> all_text (mark category_filter messages).
Proof.
  unfold all_text, mark. intros H. apply Forall_map.
  eapply Forall_impl; [|exact H]. intros [k d] Hd. simpl in *.
  now destruct (picks category_filter d).
Qed.

Lemma request_path_perform c w :
  request_path (snd (perform c w)) = request_path w.
Proof.
  destruct (request_path w) as [path|] eqn:Hctx.
  2:{ now rewrite perform_no_context. }
  destruct c as [msg cat rid | rid wc F | wc F | rid | rid];
    cbn [perform]; rewrite snd_raised.
  - now rewrite flash_message_run with (path := path).
  - destruct (Dict.get rid (the_store w)) as [d0|] eqn:G0.
    + rewrite get_flash_messages_run with (path := path) (d := d0) by assumption.
      cbn [snd]. unfold after_get. now rewrite G0.
    + now rewrite get_flash_messages_absent.
  - rewrite get_all_flash_messages_run with (path := path) by assumption.
    cbn [snd]. unfold after_get_all.
    now destruct (drain wc F (sweep (now w) (the_store w)) []).
  - rewrite clear_flash_messages_run with (path := path) by assumption.
    cbn [snd]. unfold after_clear. destruct rid as [r|]; [|assumption].
    now destruct (Dict.mem r (the_store w)).
  - now rewrite has_flash_messages_run with (path := path).
Qed.

Lemma wf_perform c w :
  Dict.wf (the_store w) -> Dict.wf (the_store (snd (perform c w))).
Proof.
  intros Hwf. destruct (request_path w) as [path|] eqn:Hctx.
  2:{ now rewrite perform_no_context. }
  destruct c as [msg cat rid | rid wc F | wc F | rid | rid];
    cbn [perform]; rewrite snd_raised.
  - rewrite flash_message_run with (path := path) by assumption. cbn [snd].
    rewrite the_store_after_flash.
    now apply DictFacts.wf_set, wf_evict, wf_sweep.
  - destruct (Dict.get rid (the_store w)) as [d0|] eqn:G0.
    + rewrite get_flash_messages_run with (path := path) (d := d0) by assumption.
      cbn [snd]. rewrite the_store_after_get with (d := d0) by assumption.
      now apply DictFacts.wf_set.
    + now rewrite get_flash_messages_absent.
  - rewrite get_all_flash_messages_run with (path := path) by assumption.
    cbn [snd]. unfold after_get_all.
    destruct (drain wc F (sweep (now w) (the_store w)) []) as [m [res|e]] eqn:E.
    + apply drain_ret in E as [-> _]. unfold the_store at 1. cbn [session].
      unfold Dict.wf. rewrite keys_mark. now apply wf_sweep.
    + unfold the_store in *. cbn [session].
      destruct (session w) as [s|]; cbn [option_map]; [|constructor].
      unfold Dict.wf. now rewrite keys_shared.
  - rewrite clear_flash_messages_run with (path := path) by assumption.
    cbn [snd]. unfold after_clear. destruct rid as [r|].
    + destruct (Dict.mem r (the_store w)); [|assumption].
      unfold the_store at 1. cbn [session with_session].
      now apply DictFacts.wf_del.
    + constructor.
  - now rewrite has_flash_messages_run with (path := path).
Qed.

Lemma all_text_perform c w :
  all_text (the_store w) -> all_text (the_store (snd (perform c w))).
Proof.
  intros Hall. destruct (request_path w) as [path|] eqn:Hctx.
  2:{ now rewrite perform_no_context. }
  destruct c as [msg cat rid | rid wc F | wc F | rid | rid];
    cbn [perform]; rewrite snd_raised.
  - rewrite flash_message_run with (path := path) by assumption. cbn [snd].
    rewrite the_store_after_flash.
    apply Forall_set; [reflexivity|]. now apply all_text_evict, all_text_sweep.
  - destruct (Dict.get rid (the_store w)) as [d0|] eqn:G0.
    + rewrite get_flash_messages_run with (path := path) (d := d0) by assumption.
      cbn [snd]. rewrite the_store_after_get with (d := d0) by assumption.
      apply Forall_set; [|assumption]. cbn [snd].
      rewrite has_text_set_consumed. now apply all_text_get with (2 := G0).
    + now rewrite get_flash_messages_absent.
  - rewrite get_all_flash_messages_run with (path := path) by assumption.
    cbn [snd]. unfold after_get_all.
    destruct (drain_total wc F (all_text_sweep (now w) Hall) []) as [res ->].
    unfold the_store at 1. cbn [session].
    now apply all_text_mark, all_text_sweep.
  - rewrite clear_flash_messages_run with (path := path) by assumption.
    cbn [snd]. unfold after_clear. destruct rid as [r|].
    + destruct (Dict.mem r (the_store w)); [|assumption].
      unfold the_store at 1. cbn [session with_session].
      now apply Forall_filter.
    + constructor.
  - now rewrite has_flash_messages_run with (path := path).
Qed.

Lemma spent_perform c w k :
  Dict.wf (the_store w) ->
  is_flash c = false ->
  spent k (the_store w) -> spent k (the_store (snd (perform c w))).
Proof.
  intros Hwf Hc Hs. unfold spent in *.
  destruct (Dict.get k (the_store (snd (perform c w)))) as [d'|] eqn:G; [|exact I].
  apply perform_origin in G as [d [G0 Hd]]; try assumption.
  - rewrite G0 in Hs. destruct Hd as [->| ->]; [assumption | reflexivity].
  - destruct c; try discriminate Hc; discriminate.
Qed.

Lemma perform_all_between cs :
  Forall (fun c => is_flash c = false) cs ->
  forall w,
    Dict.wf (the_store w) ->
    request_path (perform_all cs w) = request_path w /\
    Dict.wf (the_store (perform_all cs w)) /\
    (all_text (the_store w) -> all_text (the_store (perform_all cs w))) /\
    (forall k, spent k (the_store w) -> spent k (the_store (perform_all cs w))).
Proof.
  induction 1 as [|c cs Hc Hcs IH]; intros w Hwf; cbn [perform_all].
  - auto.
  - destruct (IH (snd (perform c w)) (wf_perform c w Hwf)) as (Hp & Hw & Ht & Hs).
    repeat split.
    + now rewrite Hp, request_path_perform.
    + assumption.
    + intros Hall. now apply Ht, all_text_perform.
    + intros k Hk. now apply Hs, spent_perform.
Qed.

(** What a draining call picks is unconsumed; what it picked is spent. *)
Lemma picked_unspent category_filter messages k :
  Dict.wf messages ->
  In k (Dict.keys (picked category_filter messages)) ->
  exists d, Dict.get k messages = Some d /\ picks category_filter d = true.
Proof.
  intros Hwf Hin. unfold Dict.keys in Hin. apply in_map_iff in Hin as [[k' d] [<- Hin]].
  unfold picked in Hin. apply filter_In in Hin as [Hin Hp]. cbn [fst snd] in *.
  exists d. split; [now apply DictFacts.In_get | assumption].
Qed.

Lemma picks_not_consumed category_filter d :
  picks category_filter d = true -> consumed d <> Some true.
Proof.
  unfold picks, unconsumed, get_consumed. intros H Hc. rewrite Hc in H.
  discriminate H.
Qed.

Lemma In_rendered with_categories messages k d x :
  In (k, d) messages -> render with_categories d = Ret x ->
  In x (rendered with_categories messages).
Proof.
  intros Hin Hx. unfold rendered. apply in_flat_map. exists (k, d).
  split; [assumption|]. cbn [snd]. rewrite Hx. now left.
Qed.

(** *** Lists kept to their last elements *)

Lemma filter_all (A : Type) (f : A -> bool) (l : list A) :
  (forall x, In x l -> f x = true) -> filter f l = l.
Proof.
  induction l as [|x l IH]; intros H; simpl; [reflexivity|].
  rewrite (H x (or_introl eq_refl)). f_equal. apply IH.
  intros y Hy. apply H. now right.
Qed.

Lemma length_keep_last (A : Type) (n : nat) (l : list A) :
  length (keep_last n l) = Nat.min n (length l).
Proof. unfold keep_last. rewrite length_skipn. lia. Qed.

Lemma keep_last_short (A : Type) (n : nat) (l : list A) :
  (length l <= n)%nat -> keep_last n l = l.
Proof.
  intros H. unfold keep_last. replace (length l - n)%nat with 0%nat by lia.
  reflexivity.
Qed.

Lemma keep_last_In (A : Type) (n : nat) (l : list A) (x : A) :
  In x (keep_last n l) -> In x l.
Proof.
  unfold keep_last. intros H. rewrite <- (firstn_skipn (length l - n) l).
  apply in_or_app. now right.
Qed.

Lemma keep_last_app (A : Type) (n : nat) (a b : list A) :
  keep_last n (keep_last n a ++ b) = keep_last n (a ++ b).
Proof.
  destruct (Nat.le_gt_cases (length a) n) as [Hle|Hgt].
  - now rewrite keep_last_short with (l := a).
  - unfold keep_last. rewrite !length_app, length_skipn.
    rewrite !skipn_app, skipn_skipn, length_skipn.
    f_equal; f_equal; lia.
Qed.

Lemma keep_last_snoc (A : Type) (n : nat) (l : list A) (x : A) :
  (0 < n)%nat -> (length l <= n)%nat ->
  (if (n <=? length l)%nat then tl l else l) ++ [x] = keep_last n (l ++ [x]).
Proof.
  intros Hn Hl. unfold keep_last. rewrite length_app. simpl.
  destruct (n <=? length l)%nat eqn:E.
  - apply Nat.leb_le in E. replace (length l + 1 - n)%nat with 1%nat by lia.
    destruct l as [|y l]; [simpl in E; lia | reflexivity].
  - apply Nat.leb_gt in E. replace (length l + 1 - n)%nat with 0%nat by lia.
    reflexivity.
Qed.

Lemma keep_last_one_more (A : Type) (n : nat) (l : list A) :
  length l = S n -> keep_last n l = tl l.
Proof.
  intros H. unfold keep_last. rewrite H.
  replace (S n - n)%nat with 1%nat by lia. now destruct l.
Qed.

Lemma StronglySorted_app_r (A : Type) (R : A -> A -> Prop) (a b : list A) :
  StronglySorted R (a ++ b) -> StronglySorted R b.
Proof.
  induction a as [|x a IH]; simpl; [auto|].
  intros H. inversion H; auto.
Qed.

Lemma increasing_keep_last n messages :
  increasing messages -> increasing (keep_last n messages).
Proof.
  unfold increasing, keep_last. intros H.
  rewrite <- (firstn_skipn (length messages - n) messages) in H.
  now apply StronglySorted_app_r in H.
Qed.

Lemma wf_keep_last n (messages : store) :
  Dict.wf messages -> Dict.wf (keep_last n messages).
Proof.
  unfold Dict.wf, Dict.keys, keep_last. intros H.
  rewrite <- (firstn_skipn (length messages - n) messages), map_app in H.
  now apply NoDup_app_remove_l in H.
Qed.

(** *** Eviction from a dict in timestamp order *)

Lemma set_new_app (V : Type) k (v : V) d :
  Dict.get k d = None -> Dict.set k v d = d ++ [(k, v)].
Proof.
  induction d as [|[k' v'] d IH]; simpl; [reflexivity|].
  destruct (String.eqb k' k); [discriminate|]. intros H. now rewrite IH.
Qed.

Lemma del_head (V : Type) k (v : V) d :
  Dict.wf ((k, v) :: d) -> Dict.del k ((k, v) :: d) = d.
Proof.
  unfold Dict.wf, Dict.del. simpl. intros H. inversion H as [|? ? Hnotin _]; subst.
  rewrite String.eqb_refl. simpl. apply filter_all.
  intros [k' v'] Hin. simpl. apply negb_true_iff, String.eqb_neq.
  intros ->. apply Hnotin. change k with (fst (k, v')). now apply in_map.
Qed.

Lemma oldest_key_head k d rest :
  Dict.wf ((k, d) :: rest) -> increasing ((k, d) :: rest) ->
  oldest_key ((k, d) :: rest) = Some k.
Proof.
  intros Hwf Hinc. unfold oldest_key. cbn [Dict.keys map fst].
  apply min_by_head. intros y Hy.
  unfold timestamp_of at 1. cbn [Dict.get]. rewrite String.eqb_refl.
  apply in_map_iff in Hy as [[y' dy] [<- Hin]]. cbn [fst].
  unfold timestamp_of.
  rewrite DictFacts.In_get with (v := dy); [|assumption | now right].
  inversion Hinc as [|? ? _ Hall]; subst. rewrite Forall_forall in Hall.
  specialize (Hall (y', dy) Hin). simpl in Hall. lia.
Qed.

Lemma evict_fifo messages :
  Dict.wf messages -> increasing messages ->
  evict messages
  = if (MAX_MESSAGES_PER_SESSION <=? length messages)%nat
    then tl messages else messages.
Proof.
  intros Hwf Hinc. unfold evict.
  destruct (MAX_MESSAGES_PER_SESSION <=? length messages)%nat eqn:E;
    [|reflexivity].
  destruct messages as [|[k d] rest]; [discriminate E|].
  rewrite oldest_key_head by assumption. now apply del_head.
Qed.

(** *** The records a run creates *)

Lemma inserted_app c reads l1 l2 :
  inserted c reads (l1 ++ l2)
  = inserted c reads l1 ++ inserted c (reads + 2 * length l1) l2.
Proof.
  revert reads. induction l1 as [|[[rid msg] cat] l1 IH]; intros reads; simpl.
  - now rewrite Nat.add_0_r.
  - rewrite IH. do 3 f_equal. lia.
Qed.

Lemma keys_inserted c reads l :
  Dict.keys (inserted c reads l) = request_ids l.
Proof.
  revert reads. induction l as [|[[rid msg] cat] l IH]; intros reads; simpl;
    [reflexivity|]. now rewrite IH.
Qed.

Lemma length_inserted c reads l : length (inserted c reads l) = length l.
Proof.
  revert reads. induction l as [|[[rid msg] cat] l IH]; intros reads; simpl;
    [reflexivity|]. now rewrite IH.
Qed.

Lemma In_inserted c reads l kv :
  In kv (inserted c reads l) ->
  exists i, (i < length l)%nat /\
            get_timestamp (snd kv) = c (S (reads + 2 * i))%nat.
Proof.
  revert reads. induction l as [|[[rid msg] cat] l IH]; intros reads; simpl;
    [tauto|].
  intros [<-|H].
  - exists 0%nat. split; [lia|]. simpl. now rewrite Nat.add_0_r.
  - apply IH in H as [i [Hi Ht]]. exists (S i). split; [lia|].
    rewrite Ht. f_equal. lia.
Qed.

(** Closes a goal on clock readings with a hypothesis on the same
    readings, written with other index arithmetic. *)
Ltac same_readings H :=
  match type of H with
  | ?c ?a' < ?c ?b' =>
      match goal with
      | |- c ?a < c ?b =>
          replace (c a) with (c a') by (f_equal; lia);
          replace (c b) with (c b') by (f_equal; lia); exact H
      end
  | ?c ?a' - ?c ?b' < ?m =>
      match goal with
      | |- c ?a - c ?b < m =>
          replace (c a) with (c a') by (f_equal; lia);
          replace (c b) with (c b') by (f_equal; lia); exact H
      end
  end.

Lemma increasing_inserted c reads l :
  (forall i j, (i < j < length l)%nat ->
               c (S (reads + 2 * i))%nat < c (S (reads + 2 * j))%nat) ->
  increasing (inserted c reads l).
Proof.
  unfold increasing. revert reads.
  induction l as [|[[rid msg] cat] l IH]; intros reads H; simpl; constructor.
  - apply IH. intros i j Hij.
    assert (H' := H (S i) (S j) ltac:(simpl; lia)).
    same_readings H'.
  - apply Forall_forall. intros kv Hin.
    apply In_inserted in Hin as [i [Hi Ht]]. rewrite Ht.
    cbn [snd new_record get_timestamp timestamp].
    assert (H' := H 0%nat (S i) ltac:(simpl; lia)).
    same_readings H'.
Qed.

Lemma flash_each_app l1 l2 w :
  flash_each (l1 ++ l2) w = flash_each l2 (flash_each l1 w).
Proof.
  revert w. induction l1 as [|[[rid msg] cat] l1 IH]; intros w; simpl; auto.
Qed.

(** *** Capacity *)

Lemma length_after_flash msg cat request_id w :
  (length (the_store (after_flash msg cat request_id w))
   <= Nat.max MAX_MESSAGES_PER_SESSION (length (the_store w)))%nat.
Proof.
  rewrite the_store_after_flash.
  pose proof (DictFacts.length_set_le (used_id request_id w)
                (new_record msg cat (clock w (S (clock_reads w))))
                (evict (sweep (now w) (the_store w)))) as Hset.
  pose proof (length_evict (sweep (now w) (the_store w))) as [Hev Hfull].
  pose proof (length_sweep (now w) (the_store w)) as Hsw.
  destruct (Nat.le_gt_cases MAX_MESSAGES_PER_SESSION
              (length (sweep (now w) (the_store w)))) as [H|H].
  - specialize (Hfull H). lia.
  - lia.
Qed.

Lemma length_perform c w :
  (length (the_store (snd (perform c w)))
   <= Nat.max MAX_MESSAGES_PER_SESSION (length (the_store w)))%nat.
Proof.
  destruct (request_path w) as [path|] eqn:Hctx.
  2:{ rewrite perform_no_context by assumption. cbn [snd]. lia. }
  destruct c as [msg cat rid | rid wc F | wc F | rid | rid];
    cbn [perform]; rewrite snd_raised.
  - rewrite flash_message_run with (path := path) by assumption. cbn [snd].
    apply length_after_flash.
  - destruct (Dict.get rid (the_store w)) as [d0|] eqn:G0.
    + rewrite get_flash_messages_run with (path := path) (d := d0) by assumption.
      cbn [snd]. rewrite the_store_after_get with (d := d0) by assumption.
      rewrite DictFacts.length_set_mem; [lia | congruence].
    + rewrite get_flash_messages_absent by assumption. cbn [snd]. lia.
  - rewrite get_all_flash_messages_run with (path := path) by assumption.
    cbn [snd]. unfold after_get_all.
    pose proof (length_sweep (now w) (the_store w)) as Hsw.
    destruct (drain wc F (sweep (now w) (the_store w)) []) as [m [res|e]] eqn:E.
    + apply drain_ret in E as [-> _]. unfold the_store at 1. cbn [session].
      unfold mark. rewrite length_map. lia.
    + unfold the_store. cbn [session].
      destruct (session w) as [s|]; cbn [option_map length]; [|lia].
      unfold shared. rewrite length_map. lia.
  - rewrite clear_flash_messages_run with (path := path) by assumption.
    cbn [snd]. unfold after_clear. destruct rid as [r|].
    + destruct (Dict.mem r (the_store w)); [|lia].
      unfold the_store at 1. cbn [session with_session].
      pose proof (DictFacts.length_del_le r (the_store w)). lia.
    + unfold the_store at 1. cbn [session with_session length]. lia.
  - rewrite has_flash_messages_run with (path := path) by assumption.
    cbn [snd]. lia.
Qed.

(** What holds of every state the module itself can reach. *)
Lemma reachable_invariant w :
  reachable w ->
  Dict.wf (the_store w) /\
  (length (the_store w) <= MAX_MESSAGES_PER_SESSION)%nat /\
  all_text (the_store w).
Proof.
  induction 1 as [w Hnew | c w _ (Hwf & Hlen & Htext) | w w' _ IH Hsame].
  - unfold the_store. rewrite Hnew. repeat split; [constructor | simpl; lia | constructor].
  - repeat split.
    + now apply wf_perform.
    + pose proof (length_perform c w). lia.
    + now apply all_text_perform.
  - unfold the_store in *. now rewrite Hsame.
Qed.

(** *** A run of insertions into an empty mapping *)

Lemma flash_each_fifo (path : string) (l : list (string * string * string)) :
  forall w,
    request_path w = Some path ->
    the_store w = [] ->
    NoDup (request_ids l) ->
    (forall i j, (i < j < length l)%nat -> stamp w i < stamp w j) ->
    (forall i j, (i < j < length l)%nat ->
                 sweep_time w j - stamp w i < MAX_MESSAGE_AGE) ->
    request_path (flash_each l w) = Some path /\
    clock (flash_each l w) = clock w /\
    clock_reads (flash_each l w) = (clock_reads w + 2 * length l)%nat /\
    the_store (flash_each l w)
    = keep_last MAX_MESSAGES_PER_SESSION (inserted (clock w) (clock_reads w) l).
Proof.
  induction l as [|[[rid msg] cat] l IH] using rev_ind;
    intros w Hctx Hempty Hids Hstamps Hfresh.
  - simpl. rewrite Hempty. repeat split; auto.
  - unfold request_ids in Hids. rewrite map_app in Hids. cbn [map fst] in Hids.
    rewrite length_app in Hstamps, Hfresh. cbn [length] in Hstamps, Hfresh.
    destruct (IH w Hctx Hempty) as (Hp & Hc & Hr & Hs).
    { now apply NoDup_app_remove_r in Hids. }
    { intros i j Hij. apply Hstamps. lia. }
    { intros i j Hij. apply Hfresh. lia. }
    rewrite flash_each_app. cbn [flash_each].
    set (w0 := flash_each l w) in *.
    set (s := the_store w0) in *.
    rewrite flash_message_run with (path := path) by assumption. cbn [snd].
    assert (Hin : forall kv, In kv s ->
                    exists i, (i < length l)%nat /\
                              get_timestamp (snd kv) = stamp w i).
    { intros kv Hkv. rewrite Hs in Hkv. apply keep_last_In in Hkv.
      now apply In_inserted in Hkv. }
    assert (Hnow : now w0 = sweep_time w (length l)).
    { unfold now, sweep_time. now rewrite Hc, Hr. }
    assert (Hsweep : sweep (now w0) s = s).
    { apply filter_all. intros kv Hkv. apply Hin in Hkv as [i [Hi Ht]].
      unfold fresh_at. apply Z.ltb_lt. rewrite Ht, Hnow. apply Hfresh. lia. }
    assert (Hkeys : Dict.wf (inserted (clock w) (clock_reads w) l)).
    { unfold Dict.wf. rewrite keys_inserted. now apply NoDup_app_remove_r in Hids. }
    assert (Hwf : Dict.wf s) by (rewrite Hs; now apply wf_keep_last).
    assert (Hinc : increasing s).
    { rewrite Hs. apply increasing_keep_last, increasing_inserted.
      intros i j Hij. apply Hstamps. lia. }
    assert (Hnew : ~ In rid (Dict.keys s)).
    { intros Hk. apply NoDup_remove_2 in Hids. apply Hids.
      rewrite app_nil_r. rewrite <- keys_inserted with (c := clock w) (reads := clock_reads w).
      unfold Dict.keys in *. apply in_map_iff in Hk as [kv [<- Hkv]].
      apply in_map. rewrite Hs in Hkv. now apply keep_last_In in Hkv. }
    assert (Hlen : (length s <= MAX_MESSAGES_PER_SESSION)%nat).
    { rewrite Hs, length_keep_last. lia. }
    repeat split.
    + exact Hp.
    + exact Hc.
    + cbn [clock_reads after_flash]. rewrite Hr, length_app. simpl. lia.
    + rewrite the_store_after_flash. fold s. rewrite Hsweep.
      rewrite evict_fifo by assumption.
      rewrite set_new_app.
      * cbn [used_id]. rewrite keep_last_snoc; [|unfold MAX_MESSAGES_PER_SESSION; lia | assumption].
        rewrite Hs, keep_last_app, inserted_app. cbn [inserted].
        now rewrite Hc, Hr.
      * apply DictFacts.get_None_keys. intros Hk. apply Hnew.
        destruct (MAX_MESSAGES_PER_SESSION <=? length s)%nat; [|assumption].
        destruct s; [assumption | now right].
Qed.

(** *** Deciding that request ids are distinct *)

Lemma distinct_NoDup l : distinct l = true -> NoDup l.
Proof.
  induction l as [|x l IH]; simpl; [constructor|].
  intros H. apply andb_true_iff in H as [Hx Hl]. constructor; [|auto].
  intros Hin. apply str_in_true in Hin. rewrite Hin in Hx. discriminate.
Qed.

(** ** The test-suite, replayed on the model

    Each example runs the calls of one test of [tests/test_flash_messages.py]
    and states what the test asserts. *)

Example test_flash_message_basic :
  let r := flash_message "Test message" "positive" None (demo_world None 1000) in
  fst r = Ret "/test:A" /\
  Dict.get "/test:A" (the_store (snd r))
  = Some {| message := Some "Test message"; category := Some "positive";
            timestamp := Some 1001; consumed := Some false |}.
Proof. split; reflexivity. Qed.

Example test_get_flash_messages :
  let r := (request_id <- flash_message "Test message" "positive" None ;;
            get_flash_messages request_id false None) (demo_world None 1000) in
  fst r = Ret [Msg "Test message"] /\
  option_map consumed (Dict.get "/test:A" (the_store (snd r))) = Some (Some true).
Proof. split; reflexivity. Qed.

Example test_get_flash_messages_with_categories :
  fst ((request_id <- flash_message "Test message" "positive" None ;;
        get_flash_messages request_id true None) (demo_world None 1000))
  = Ret [CatMsg "positive" "Test message"].
Proof. reflexivity. Qed.

Example test_get_flash_messages_with_category_filter :
  fst ((request_id1 <- flash_message "Positive message" "positive" None ;;
        request_id2 <- flash_message "Negative message" "negative" None ;;
        messages1 <- get_flash_messages request_id1 false (Some ["positive"]) ;;
        messages2 <- get_flash_messages request_id2 false (Some ["negative"]) ;;
        messages3 <- get_flash_messages request_id1 false (Some ["negative"]) ;;
        ret (messages1, messages2, messages3)) (demo_world None 1000))
  = Ret ([Msg "Positive message"], [Msg "Negative message"], []).
Proof. reflexivity. Qed.

Example test_get_all_flash_messages :
  fst ((flash_message "Message 1" "positive" None ;;;
        flash_message "Message 2" "negative" None ;;;
        get_all_flash_messages false None) (demo_world None 1000))
  = Ret [Msg "Message 1"; Msg "Message 2"].
Proof. reflexivity. Qed.

Example test_clear_flash_messages :
  fst ((request_id <- flash_message "Test message" "positive" None ;;
        before <- has_flash_messages (Some request_id) ;;
        clear_flash_messages (Some request_id) ;;;
        after <- has_flash_messages (Some request_id) ;;
        ret (before, after)) (demo_world None 1000))
  = Ret (true, false).
Proof. reflexivity. Qed.

Example test_clear_all_flash_messages :
  fst ((flash_message "Message 1" "positive" None ;;;
        flash_message "Message 2" "negative" None ;;;
        before <- has_flash_messages None ;;
        clear_flash_messages None ;;;
        after <- has_flash_messages None ;;
        ret (before, after)) (demo_world None 1000))
  = Ret (true, false).
Proof. reflexivity. Qed.

Example test_has_flash_messages :
  fst ((initially <- has_flash_messages None ;;
        request_id <- flash_message "Test message" "positive" None ;;
        any <- has_flash_messages None ;;
        this <- has_flash_messages (Some request_id) ;;
        get_flash_messages request_id false None ;;;
        consumed_now <- has_flash_messages (Some request_id) ;;
        ret (initially, any, this, consumed_now)) (demo_world None 1000))
  = Ret (false, true, true, false).
Proof. reflexivity. Qed.

Example test_message_cleanup :
  fst ((request_id <- flash_message "Old message" "positive" None ;;
        flash_message "New message" "positive" None ;;;
        has_flash_messages (Some request_id)) mocked_world)
  = Ret false.
Proof. reflexivity. Qed.

Example test_no_request_context :
  let w := no_context (demo_world None 1000) in
  fst (flash_message "Test message" "positive" None w) = Ret "" /\
  fst (get_flash_messages "test_id" false None w) = Ret [] /\
  fst (get_all_flash_messages false None w) = Ret [] /\
  fst (has_flash_messages None w) = Ret false.
Proof. repeat split. Qed.

(** *** Records without a timestamp or a flag *)

Lemma drain_ret_renders with_categories category_filter messages :
  forall result messages' result',
    drain with_categories category_filter messages result
    = (messages', Ret result') ->
    forall kv, In kv (picked category_filter messages) ->
               exists x, render with_categories (snd kv) = Ret x.
Proof.
  induction messages as [|[k d] rest IH]; intros result messages' result' H kv Hin;
    [destruct Hin|].
  cbn [drain] in H. unfold picked, picks, unconsumed in Hin. cbn [filter snd] in Hin.
  destruct (get_consumed d); cbn [negb andb] in Hin.
  - destruct (drain with_categories category_filter rest result) as [r o] eqn:E.
    injection H as _ ->. eapply IH; eauto.
  - destruct (excluded category_filter d) as [[|]|e]; [| |discriminate].
    + destruct (drain with_categories category_filter rest result) as [r o] eqn:E.
      injection H as _ ->. eapply IH; eauto.
    + destruct (render with_categories d) as [x|e] eqn:R; [|discriminate].
      destruct (drain with_categories category_filter rest (result ++ [x]))
        as [r o] eqn:E.
      injection H as _ ->. destruct Hin as [<-|Hin]; [eauto|].
      eapply IH; eauto.
Qed.

Lemma undated_is_oldest (messages : store) k d :
  Dict.wf messages ->
  Dict.get k messages = Some d ->
  timestamp d = None ->
  (forall k' d', k' <> k -> Dict.get k' messages = Some d' ->
                 exists t, timestamp d' = Some t /\ 0 < t) ->
  oldest_key messages = Some k.
Proof.
  intros Hwf Hget Hnone Hothers. unfold oldest_key.
  destruct (min_by (timestamp_of messages) (Dict.keys messages)) as [k0|] eqn:Hmin.
  2:{ destruct messages; [discriminate Hget | discriminate Hmin]. }
  f_equal. destruct (String.eqb k0 k) eqn:E; [now apply String.eqb_eq in E|].
  apply String.eqb_neq in E. exfalso.
  assert (Hk : In k (Dict.keys messages)).
  { apply DictFacts.get_In in Hget. unfold Dict.keys.
    change k with (fst (k, d)). now apply in_map. }
  pose proof (min_by_le _ _ Hmin k Hk) as Hle.
  apply min_by_In in Hmin.
  destruct (Dict.get k0 messages) as [d0|] eqn:G0.
  - destruct (Hothers k0 d0 E G0) as (t & Ht & Hpos).
    unfold timestamp_of, get_timestamp in Hle. rewrite G0, Hget, Ht, Hnone in Hle.
    lia.
  - apply DictFacts.get_None_keys in G0. contradiction.
Qed.

(** ** Properties of the store *)

(** C1. With an active request context, [flash_message] followed at once by
    [get_flash_messages] on the id it returned gives exactly [[message]], or
    [[(category, message)]] with [with_categories], whatever the session
    held before, whatever the clock reads and whether the id was generated
    or supplied. *)
Theorem flash_then_get (w : world) (path msg cat : string)
    (request_id : option string) (with_categories : bool) :
  request_path w = Some path ->
  exists rid w1 w2,
    flash_message msg cat request_id w = (Ret rid, w1) /\
    get_flash_messages rid with_categories None w1
    = (Ret [if with_categories then CatMsg cat msg else Msg msg], w2).
Proof.
  intros Hctx.
  exists (used_id request_id w), (after_flash msg cat request_id w).
  eexists. split; [now apply flash_message_run with (path := path)|].
  erewrite get_flash_messages_run with (path := path);
    [| exact Hctx | apply DictFacts.get_set_eq].
  destruct with_categories; reflexivity.
Qed.

Lemma flash_then_get_witness :
  request_path (demo_world None 1000) = Some "/test" /\
  exists rid w1 w2,
    flash_message "Test message" "positive" None (demo_world None 1000)
    = (Ret rid, w1) /\
    get_flash_messages rid true None w1
    = (Ret [CatMsg "positive" "Test message"], w2).
Proof.
  split; [reflexivity|].
  apply (@flash_then_get (demo_world None 1000) "/test" "Test message" "positive"
           None true).
  reflexivity.
Defined.

(** C6. Without a request context each of the five functions returns its
    sentinel and leaves the whole state as it was: nothing is raised,
    nothing is written, no clock reading or uuid is consumed. *)
Theorem no_context_sentinels (w : world) (msg cat rid : string)
    (request_id : option string) (with_categories : bool)
    (category_filter : option (list string)) :
  request_path w = None ->
  flash_message msg cat request_id w = (Ret "", w) /\
  get_flash_messages rid with_categories category_filter w = (Ret [], w) /\
  get_all_flash_messages with_categories category_filter w = (Ret [], w) /\
  clear_flash_messages request_id w = (Ret tt, w) /\
  has_flash_messages request_id w = (Ret false, w).
Proof.
  intros Hctx.
  unfold flash_message, get_flash_messages, get_all_flash_messages,
    clear_flash_messages, has_flash_messages, has_request_context, bind, ret.
  rewrite Hctx. simpl. repeat split; reflexivity.
Qed.

Lemma no_context_sentinels_witness :
  let w := no_context (demo_world (Some [("/test:A", positive_1000)]) 1000) in
  request_path w = None /\
  flash_message "Test message" "positive" None w = (Ret "", w) /\
  get_flash_messages "/test:A" false None w = (Ret [], w) /\
  get_all_flash_messages false None w = (Ret [], w) /\
  clear_flash_messages None w = (Ret tt, w) /\
  has_flash_messages None w = (Ret false, w).
Proof.
  intros w. split; [reflexivity|].
  apply (@no_context_sentinels w "Test message" "positive" "/test:A" None false None).
  reflexivity.
Defined.

(** C8. [has_flash_messages(request_id)] is true exactly when the key is in
    the mapping and the stored [consumed] field is not [True]: it is
    [False], or it is missing and reads as [False].  It is false for a
    missing key and for a record whose field is [True].  The call changes
    nothing and reads no clock, so a record that is already past
    [MAX_MESSAGE_AGE] but not yet swept still counts. *)
Theorem has_flash_messages_by_id (w : world) (path request_id : string) :
  request_path w = Some path ->
  exists b,
    has_flash_messages (Some request_id) w = (Ret b, w) /\
    (b = true <->
     exists d, Dict.get request_id (the_store w) = Some d /\
               (consumed d = Some false \/ consumed d = None)) /\
    (Dict.get request_id (the_store w) = None -> b = false) /\
    (forall d, Dict.get request_id (the_store w) = Some d ->
               consumed d = Some true -> b = false) /\
    (forall d t, Dict.get request_id (the_store w) = Some d ->
                 consumed d = Some false \/ consumed d = None ->
                 timestamp d = Some t ->
                 now w - t >= MAX_MESSAGE_AGE -> b = true).
Proof.
  intros Hctx. rewrite has_flash_messages_run with (path := path) by assumption.
  eexists. split; [reflexivity|]. unfold unconsumed, get_consumed.
  destruct (Dict.get request_id (the_store w)) as [d|];
    [destruct (consumed d) as [[|]|] eqn:Hc; cbn [negb]|];
    repeat split; intros;
    repeat match goal with
      | H : exists _, _ |- _ => destruct H as [? [? ?]]
      | H : _ \/ _ |- _ => destruct H
      | H : Some _ = Some _ |- _ => injection H as H; subst
      end;
    try congruence; try (eexists; split; [reflexivity | auto]).
Qed.

Lemma has_flash_messages_by_id_witness :
  let w := demo_world (Some [("/test:A", positive_1000);
                             ("/test:B", set_consumed negative_1000);
                             ("/test:C", no_consumed)]) 5000 in
  (request_path w = Some "/test" /\
   Dict.get "/test:A" (the_store w) = Some positive_1000 /\
   consumed positive_1000 = Some false /\
   timestamp positive_1000 = Some 1000 /\
   now w - 1000 >= MAX_MESSAGE_AGE /\
   Dict.get "/test:B" (the_store w) = Some (set_consumed negative_1000) /\
   consumed (set_consumed negative_1000) = Some true /\
   Dict.get "/test:C" (the_store w) = Some no_consumed /\
   consumed no_consumed = None /\
   Dict.get "/test:D" (the_store w) = None) /\
  has_flash_messages (Some "/test:A") w = (Ret true, w) /\
  has_flash_messages (Some "/test:B") w = (Ret false, w) /\
  has_flash_messages (Some "/test:C") w = (Ret true, w) /\
  has_flash_messages (Some "/test:D") w = (Ret false, w).
Proof.
  intros w.
  assert (Hold : now w - 1000 >= MAX_MESSAGE_AGE) by (vm_compute; discriminate).
  split; [repeat split; exact Hold|].
  destruct (@has_flash_messages_by_id w "/test" "/test:A" eq_refl)
    as (bA & HA & _ & _ & _ & HA').
  destruct (@has_flash_messages_by_id w "/test" "/test:B" eq_refl)
    as (bB & HB & _ & _ & HB' & _).
  destruct (@has_flash_messages_by_id w "/test" "/test:C" eq_refl)
    as (bC & HC & HC' & _).
  destruct (@has_flash_messages_by_id w "/test" "/test:D" eq_refl)
    as (bD & HD & _ & HD' & _).
  rewrite (HA' positive_1000 1000 eq_refl (or_introl eq_refl) eq_refl Hold) in HA.
  rewrite (HB' (set_consumed negative_1000) eq_refl eq_refl) in HB.
  rewrite (proj2 HC' (ex_intro _ no_consumed (conj eq_refl (or_intror eq_refl))))
    in HC.
  rewrite (HD' eq_refl) in HD.
  repeat split; assumption.
Defined.

(** C10. [get_flash_messages] neither sweeps nor looks at the age: a record
    that is still in the mapping is returned and marked consumed whatever
    its timestamp, in particular when it is at or past [MAX_MESSAGE_AGE].
    The record stored afterwards has [consumed = True] and the message,
    category and timestamp it had; the call reads no clock. *)
Theorem get_by_id_ignores_age (w : world) (path request_id m : string)
    (d : msg_data) :
  request_path w = Some path ->
  Dict.get request_id (the_store w) = Some d ->
  message d = Some m ->
  exists w',
    get_flash_messages request_id false None w = (Ret [Msg m], w') /\
    (exists d',
       Dict.get request_id (the_store w') = Some d' /\
       consumed d' = Some true /\
       message d' = Some m /\ category d' = category d /\
       timestamp d' = timestamp d) /\
    Dict.get request_id (the_store w') = Some (set_consumed d) /\
    has_flash_messages (Some request_id) w' = (Ret false, w') /\
    clock_reads w' = clock_reads w /\
    (forall c, category d = Some c ->
               get_flash_messages request_id true None w
               = (Ret [CatMsg c m], w')).
Proof.
  intros Hctx Hget Hm. exists (after_get request_id w).
  assert (Hget' : Dict.get request_id (the_store (after_get request_id w))
                  = Some (set_consumed d)).
  { rewrite the_store_after_get with (d := d) by assumption.
    apply DictFacts.get_set_eq. }
  split; [|split; [|split; [|split; [|split]]]].
  - rewrite get_flash_messages_run with (path := path) (d := d) by assumption.
    unfold excluded, render, item_message. simpl. now rewrite Hm.
  - exists (set_consumed d). repeat split; [exact Hget' | exact Hm].
  - exact Hget'.
  - rewrite has_flash_messages_run with (path := path)
      by (unfold after_get; now rewrite Hget).
    now rewrite Hget'.
  - unfold after_get. rewrite Hget. reflexivity.
  - intros c Hc.
    rewrite get_flash_messages_run with (path := path) (d := d) by assumption.
    unfold excluded, render, item_message, item_category. simpl.
    now rewrite Hm, Hc.
Qed.

Lemma get_by_id_ignores_age_witness :
  let w := demo_world (Some [("/test:A", positive_1000)]) 5000 in
  (request_path w = Some "/test" /\
   Dict.get "/test:A" (the_store w) = Some positive_1000 /\
   message positive_1000 = Some "Positive message" /\
   category positive_1000 = Some "positive" /\
   consumed positive_1000 = Some false /\
   now w - 1000 >= MAX_MESSAGE_AGE) /\
  exists w',
    get_flash_messages "/test:A" false None w = (Ret [Msg "Positive message"], w') /\
    Dict.get "/test:A" (the_store w')
    = Some {| message := Some "Positive message"; category := Some "positive";
              timestamp := Some 1000; consumed := Some true |} /\
    has_flash_messages (Some "/test:A") w' = (Ret false, w') /\
    clock_reads w' = clock_reads w /\
    get_flash_messages "/test:A" true None w
    = (Ret [CatMsg "positive" "Positive message"], w').
Proof.
  intros w.
  assert (Hold : now w - 1000 >= MAX_MESSAGE_AGE) by (vm_compute; discriminate).
  split; [repeat split; exact Hold|].
  destruct (@get_by_id_ignores_age w "/test" "/test:A" "Positive message"
              positive_1000 eq_refl eq_refl eq_refl)
    as (w' & Hrun & (d' & Hget & Hc & Hm & Hcat & Hts) & _ & Hhas & Hreads & Hwc).
  exists w'. split; [exact Hrun|]. split.
  - rewrite Hget. destruct d' as [m' c' t' k']. cbn in Hc, Hm, Hcat, Hts.
    now subst.
  - split; [exact Hhas|]. split; [exact Hreads|].
    exact (Hwc "positive" eq_refl).
Defined.

(** C3. [get_flash_messages] marks the record it finds as consumed and
    writes that to the session before it looks at the category filter.  When
    the filter is a non-empty list that does not hold the record's category
    the call returns the empty sequence, so does the same call made again,
    and [has_flash_messages] of the id is false from then on. *)
Theorem get_consumes_even_when_filtered (w : world) (path request_id : string)
    (d : msg_data) (with_categories : bool)
    (category_filter : option (list string)) :
  request_path w = Some path ->
  Dict.get request_id (the_store w) = Some d ->
  let w1 := snd (get_flash_messages request_id with_categories category_filter w) in
  session w1 = Some (Dict.set request_id (set_consumed d) (the_store w)) /\
  Dict.get request_id (the_store w1) = Some (set_consumed d) /\
  consumed (set_consumed d) = Some true /\
  (forall c l,
      category d = Some c -> category_filter = Some l -> l <> [] -> ~ In c l ->
      fst (get_flash_messages request_id with_categories category_filter w)
      = Ret [] /\
      has_flash_messages (Some request_id) w1 = (Ret false, w1) /\
      exists w2,
        get_flash_messages request_id with_categories category_filter w1
        = (Ret [], w2) /\
        has_flash_messages (Some request_id) w2 = (Ret false, w2)).
Proof.
  intros Hctx Hget w1.
  assert (Hw1 : w1 = after_get request_id w).
  { unfold w1. now rewrite get_flash_messages_run with (path := path) (d := d). }
  assert (Hs1 : the_store w1 = Dict.set request_id (set_consumed d) (the_store w)).
  { rewrite Hw1. now apply the_store_after_get. }
  assert (Hg1 : Dict.get request_id (the_store w1) = Some (set_consumed d)).
  { rewrite Hs1. apply DictFacts.get_set_eq. }
  assert (Hctx1 : request_path w1 = Some path).
  { rewrite Hw1. unfold after_get. now rewrite Hget. }
  repeat split.
  - rewrite Hw1. unfold after_get. now rewrite Hget.
  - exact Hg1.
  - rewrite get_flash_messages_run with (path := path) (d := d) by assumption.
    subst category_filter. unfold excluded, item_category. simpl.
    destruct l as [|x l]; [congruence|]. simpl truthy. cbv iota.
    rewrite H. unfold filter_list. now rewrite str_in_false.
  - rewrite has_flash_messages_run with (path := path) by assumption.
    now rewrite Hg1.
  - exists (after_get request_id w1).
    assert (Hg2 : Dict.get request_id (the_store (after_get request_id w1))
                  = Some (set_consumed d)).
    { rewrite the_store_after_get with (d := set_consumed d) by assumption.
      apply DictFacts.get_set_eq. }
    split.
    + rewrite get_flash_messages_run
        with (path := path) (d := set_consumed d) by assumption.
      subst category_filter. unfold excluded, item_category. simpl.
      destruct l as [|x l]; [congruence|]. simpl truthy. cbv iota.
      rewrite H. unfold filter_list. now rewrite str_in_false.
    + rewrite has_flash_messages_run with (path := path).
      * now rewrite Hg2.
      * unfold after_get. now rewrite Hg1.
Qed.

Lemma get_consumes_even_when_filtered_witness :
  let w := demo_world (Some [("/test:A", positive_1000);
                             ("/test:B", negative_1000)]) 1000 in
  let w1 := snd (get_flash_messages "/test:A" false (Some ["negative"]) w) in
  (request_path w = Some "/test" /\
   Dict.get "/test:A" (the_store w) = Some positive_1000 /\
   category positive_1000 = Some "positive" /\
   ["negative"] <> [] /\ ~ In "positive" ["negative"]) /\
  session w1 = Some (Dict.set "/test:A" (set_consumed positive_1000) (the_store w)) /\
  Dict.get "/test:A" (the_store w1) = Some (set_consumed positive_1000) /\
  fst (get_flash_messages "/test:A" false (Some ["negative"]) w) = Ret [] /\
  has_flash_messages (Some "/test:A") w1 = (Ret false, w1) /\
  exists w2,
    get_flash_messages "/test:A" false (Some ["negative"]) w1 = (Ret [], w2) /\
    has_flash_messages (Some "/test:A") w2 = (Ret false, w2).
Proof.
  intros w w1.
  assert (Hne : ["negative"] <> []) by discriminate.
  assert (Hnot : ~ In "positive" ["negative"]).
  { intros [H|[]]. discriminate H. }
  destruct (@get_consumes_even_when_filtered w "/test" "/test:A" positive_1000
              false (Some ["negative"]) eq_refl eq_refl)
    as (Hs & Hg & _ & Hf).
  specialize (Hf "positive" ["negative"] eq_refl eq_refl Hne Hnot).
  destruct Hf as (Hr & Hh & Hrep).
  repeat split; try reflexivity; assumption.
Defined.

(** C7, as the code has it.  A record whose [consumed] flag is true keeps a
    true flag, or disappears, under every call that does not store a new
    record under its key.  A [flash_message] that stores under the key
    replaces the record by a new one, whose flag is false. *)
Theorem consumed_kept_unless_reflashed (w : world) (c : call) (k : string)
    (d : msg_data) :
  Dict.wf (the_store w) ->
  Dict.get k (the_store w) = Some d ->
  consumed d = Some true ->
  (stores_under c w <> Some k ->
   match Dict.get k (the_store (snd (perform c w))) with
   | Some d' => consumed d' = Some true
   | None => True
   end) /\
  (forall path, request_path w = Some path -> stores_under c w = Some k ->
   exists d', Dict.get k (the_store (snd (perform c w))) = Some d' /\
              consumed d' = Some false).
Proof.
  intros Hwf Hget Hcons. split.
  - intros Hother.
    destruct (Dict.get k (the_store (snd (perform c w)))) as [d'|] eqn:G;
      [|exact I].
    apply perform_origin in G as [d0 [G0 [->| ->]]]; try assumption.
    + congruence.
    + reflexivity.
  - intros path Hctx Hst.
    destruct c as [msg cat rid | | | | ]; try discriminate Hst.
    cbn [stores_under] in Hst. injection Hst as Hk.
    cbn [perform]. rewrite snd_raised.
    rewrite flash_message_run with (path := path) by assumption. cbn [snd].
    rewrite the_store_after_flash. rewrite Hk, DictFacts.get_set_eq.
    eexists. split; reflexivity.
Qed.

Lemma consumed_kept_unless_reflashed_witness :
  let w := demo_world (Some [("/test:A", set_consumed positive_1000)]) 1000 in
  (Dict.wf (the_store w) /\
   Dict.get "/test:A" (the_store w) = Some (set_consumed positive_1000) /\
   consumed (set_consumed positive_1000) = Some true /\
   stores_under (GetAll false None) w <> Some "/test:A" /\
   request_path w = Some "/test" /\
   stores_under (Flash "Again" "positive" (Some "/test:A")) w = Some "/test:A") /\
  match Dict.get "/test:A"
          (the_store (snd (perform (GetAll false None) w))) with
  | Some d' => consumed d' = Some true
  | None => True
  end /\
  exists d',
    Dict.get "/test:A"
      (the_store (snd (perform (Flash "Again" "positive" (Some "/test:A")) w)))
    = Some d' /\
    consumed d' = Some false.
Proof.
  intros w.
  assert (Hwf : Dict.wf (the_store w)).
  { repeat constructor. intros []. }
  assert (Hother : stores_under (GetAll false None) w <> Some "/test:A")
    by discriminate.
  split; [repeat split; assumption|]. split.
  - exact (proj1 (@consumed_kept_unless_reflashed w (GetAll false None) "/test:A"
                    (set_consumed positive_1000) Hwf eq_refl eq_refl) Hother).
  - exact (proj2 (@consumed_kept_unless_reflashed w
                    (Flash "Again" "positive" (Some "/test:A")) "/test:A"
                    (set_consumed positive_1000) Hwf eq_refl eq_refl)
             "/test" eq_refl eq_refl).
Defined.

(** C7, as stated, fails: flashing again under the id of a consumed record
    leaves a record with [consumed = False] at that key. *)
Lemma reflash_resets_consumed :
  let w := demo_world (Some [("/test:A", set_consumed positive_1000)]) 1000 in
  let w' := snd (flash_message "Again" "positive" (Some "/test:A") w) in
  Dict.get "/test:A" (the_store w) = Some (set_consumed positive_1000) /\
  consumed (set_consumed positive_1000) = Some true /\
  fst (flash_message "Again" "positive" (Some "/test:A") w) = Ret "/test:A" /\
  Dict.get "/test:A" (the_store w') = Some (new_record "Again" "positive" 1001) /\
  consumed (new_record "Again" "positive" 1001) = Some false.
Proof. repeat split. Qed.

(** C9, as the code has it.  The two fields read with [.get] have defaults.
    A record without [timestamp] is dated 0: the sweep of
    [_cleanup_old_messages] keeps it exactly while the clock reads less than
    [MAX_MESSAGE_AGE], so on a later clock [flash_message] and
    [get_all_flash_messages] drop it unreturned; and at capacity the
    eviction of [flash_message] takes it before any record with a positive
    timestamp.  A record without [consumed] is unconsumed: both forms of
    [has_flash_messages] are true, and the loop of [get_all_flash_messages]
    returns it and marks it.  [flash_message], [clear_flash_messages] and
    [has_flash_messages] raise on no stored record whatever; the two
    retrieval functions do not raise when the stored records carry
    [message] and [category]. *)
Theorem defaults_for_missing_fields (w : world) (path k : string)
    (d : msg_data) (c : call) :
  request_path w = Some path ->
  Dict.wf (the_store w) ->
  Dict.get k (the_store w) = Some d ->
  (timestamp d = None ->
   (forall res,
      fst (_cleanup_old_messages (the_store w) w) = Ret res ->
      (In (k, d) res <-> now w < MAX_MESSAGE_AGE)) /\
   (MAX_MESSAGE_AGE <= now w ->
    (forall msg cat request_id,
       used_id request_id w <> k ->
       Dict.get k (the_store (snd (flash_message msg cat request_id w))) = None) /\
    (forall with_categories category_filter res w',
       get_all_flash_messages with_categories category_filter w = (Ret res, w') ->
       res = rendered with_categories
               (picked category_filter (sweep (now w) (the_store w))) /\
       ~ In k (Dict.keys (picked category_filter (sweep (now w) (the_store w)))) /\
       Dict.get k (the_store w') = None)) /\
   (now w < MAX_MESSAGE_AGE ->
    (MAX_MESSAGES_PER_SESSION <= length (sweep (now w) (the_store w)))%nat ->
    (forall k' d', k' <> k -> Dict.get k' (the_store w) = Some d' ->
                   exists t, timestamp d' = Some t /\ 0 < t) ->
    forall msg cat request_id,
      used_id request_id w <> k ->
      Dict.get k (the_store (snd (flash_message msg cat request_id w))) = None /\
      (forall k', k' <> k -> k' <> used_id request_id w ->
         Dict.get k' (the_store (snd (flash_message msg cat request_id w)))
         = Dict.get k' (sweep (now w) (the_store w))))) /\
  (consumed d = None ->
   has_flash_messages (Some k) w = (Ret true, w) /\
   has_flash_messages None w = (Ret true, w) /\
   (forall with_categories category_filter res w',
      now w - match timestamp d with Some t => t | None => 0 end
      < MAX_MESSAGE_AGE ->
      (forall x l, category_filter = Some (x :: l) ->
                   exists cat, category d = Some cat /\ In cat (x :: l)) ->
      get_all_flash_messages with_categories category_filter w = (Ret res, w') ->
      exists x,
        render with_categories d = Ret x /\ In x res /\
        exists d',
          Dict.get k (the_store w') = Some d' /\ consumed d' = Some true /\
          message d' = message d /\ category d' = category d /\
          timestamp d' = timestamp d)) /\
  (match c with
   | Flash _ _ _ | Clear _ | Has _ => fst (perform c w) = None
   | Get _ _ _ | GetAll _ _ =>
       all_text (the_store w) -> fst (perform c w) = None
   end).
Proof.
  intros Hctx Hwf Hget.
  assert (Hin : In (k, d) (the_store w)) by (now apply DictFacts.get_In).
  split; [|split].
  - intros Hnone.
    assert (Hts : get_timestamp d = 0) by (unfold get_timestamp; now rewrite Hnone).
    split; [|split].
    + intros res Hres. rewrite _cleanup_old_messages_run in Hres.
      injection Hres as <-. rewrite sweep_In. cbn [snd].
      rewrite Hts, Z.sub_0_r. tauto.
    + intros Hlate.
      assert (Hswept : Dict.get k (sweep (now w) (the_store w)) = None).
      { rewrite get_sweep by assumption. rewrite Hget.
        rewrite fresh_at_false; [reflexivity | rewrite Hts; lia]. }
      split.
      * intros msg cat rid Hne.
        rewrite flash_message_run with (path := path) by assumption. cbn [snd].
        destruct (Dict.get k (the_store (after_flash msg cat rid w))) as [d'|] eqn:G;
          [|reflexivity].
        apply get_after_flash_other in G as [G Fr]; try assumption.
        rewrite Hget in G. injection G as <-.
        rewrite fresh_at_false in Fr; [discriminate | rewrite Hts; lia].
      * intros wc F res w' Hrun.
        apply get_all_flash_messages_ret with (path := path) in Hrun
            as (Hs & Hres & _ & _); [|assumption].
        split; [assumption|]. split.
        -- intros Hk. apply DictFacts.get_None_keys in Hswept. apply Hswept.
           unfold picked in Hk. now apply DictFacts.keys_filter_incl in Hk.
        -- rewrite Hs, get_mark, Hswept. reflexivity.
    + intros Hearly Hfull Hothers msg cat rid Hne.
      assert (Hks : Dict.get k (sweep (now w) (the_store w)) = Some d).
      { rewrite get_sweep by assumption. rewrite Hget.
        unfold fresh_at. rewrite Hts, Z.sub_0_r.
        apply Z.ltb_lt in Hearly. now rewrite Hearly. }
      assert (Hold : oldest_key (sweep (now w) (the_store w)) = Some k).
      { apply undated_is_oldest with (d := d);
          [now apply wf_sweep | assumption | assumption |].
        intros k' d' Hk' G. apply (Hothers k' d' Hk').
        rewrite get_sweep in G by assumption.
        destruct (Dict.get k' (the_store w)) as [d0|]; [|discriminate].
        destruct (fresh_at (now w) d0); [assumption | discriminate]. }
      rewrite flash_message_run with (path := path) by assumption. cbn [snd].
      rewrite the_store_after_flash. unfold evict.
      apply Nat.leb_le in Hfull. rewrite Hfull, Hold. split.
      * rewrite DictFacts.get_set_ne by assumption. apply DictFacts.get_del_eq.
      * intros k' Hk' Hid. rewrite DictFacts.get_set_ne by congruence.
        apply DictFacts.get_del_ne. congruence.
  - intros Hc.
    assert (Hun : unconsumed d = true).
    { unfold unconsumed, get_consumed. now rewrite Hc. }
    split; [|split].
    + rewrite has_flash_messages_run with (path := path) by assumption.
      now rewrite Hget, Hun.
    + rewrite has_flash_messages_run with (path := path) by assumption.
      f_equal. f_equal. apply existsb_exists. exists d. split; [|exact Hun].
      unfold Dict.values. change d with (snd (k, d)). now apply in_map.
    + intros wc F res w' Hyoung Hadm Hrun.
      assert (Hks : Dict.get k (sweep (now w) (the_store w)) = Some d).
      { rewrite get_sweep by assumption. rewrite Hget.
        unfold fresh_at, get_timestamp.
        apply Z.ltb_lt in Hyoung. now rewrite Hyoung. }
      assert (Hpicks : picks F d = true).
      { unfold picks. rewrite Hun. cbn [andb]. unfold excluded.
        destruct F as [[|x l]|]; cbn [truthy]; try reflexivity.
        destruct (Hadm x l eq_refl) as (cat & Hcat & Hmem).
        unfold item_category. rewrite Hcat. cbn [filter_list].
        now rewrite str_in_true. }
      assert (Hpicked : In (k, d) (picked F (sweep (now w) (the_store w)))).
      { unfold picked. apply filter_In. split; [now apply DictFacts.get_In|].
        exact Hpicks. }
      pose proof Hrun as Hrun'.
      rewrite get_all_flash_messages_run with (path := path) in Hrun' by assumption.
      injection Hrun' as Hout _.
      destruct (drain wc F (sweep (now w) (the_store w)) []) as [m o] eqn:E.
      cbn [snd] in Hout. subst o.
      destruct (drain_ret_renders _ _ _ _ E (k, d) Hpicked) as [x Hx].
      cbn [snd] in Hx.
      apply get_all_flash_messages_ret with (path := path) in Hrun
          as (Hs & Hres & _ & _); [|assumption].
      exists x. split; [exact Hx|]. split.
      * rewrite Hres. now apply In_rendered with (k := k) (d := d).
      * exists (set_consumed d). split; [|repeat split].
        rewrite Hs, get_mark, Hks. cbn [option_map]. now rewrite Hpicks.
  - assert (Hfst : forall (A : Type) (r : outcome A * world) (a : A),
               fst r = Ret a -> fst (raised r) = None).
    { intros A [[x|e] w0] y; simpl; [reflexivity | discriminate]. }
    destruct c as [msg cat rid | rid wc F | wc F | rid | rid]; cbn [perform].
    + destruct (flash_message_returns msg cat rid w) as [r Hr]. eapply Hfst, Hr.
    + intros Hall.
      destruct (get_flash_messages_returns rid wc F w Hall) as [r Hr].
      eapply Hfst, Hr.
    + intros Hall.
      destruct (get_all_flash_messages_returns wc F w Hall) as [r Hr].
      eapply Hfst, Hr.
    + now rewrite clear_flash_messages_run with (path := path).
    + now rewrite has_flash_messages_run with (path := path).
Qed.

Lemma defaults_for_missing_fields_witness :
  let early := demo_world (Some [("undated", no_timestamp);
                                 ("unflagged", no_consumed)]) 30 in
  let late := demo_world (Some [("undated", no_timestamp);
                                ("unflagged", no_consumed)]) 1010 in
  let full := demo_world (Some full_with_undated) 30 in
  (request_path early = Some "/test" /\ Dict.wf (the_store early) /\
   Dict.wf (the_store full) /\
   Dict.get "undated" (the_store early) = Some no_timestamp /\
   timestamp no_timestamp = None /\
   Dict.get "unflagged" (the_store late) = Some no_consumed /\
   consumed no_consumed = None /\
   Dict.get "M" (the_store full) = Some no_timestamp /\
   now early < MAX_MESSAGE_AGE /\ MAX_MESSAGE_AGE <= now late /\
   (MAX_MESSAGES_PER_SESSION <= length (sweep (now full) (the_store full)))%nat /\
   all_text (the_store late)) /\
  (forall res, fst (_cleanup_old_messages (the_store early) early) = Ret res ->
               In ("undated", no_timestamp) res) /\
  (forall res, fst (_cleanup_old_messages (the_store late) late) = Ret res ->
               ~ In ("undated", no_timestamp) res) /\
  Dict.get "undated"
    (the_store (snd (flash_message "New message" "positive" None late))) = None /\
  Dict.get "undated"
    (the_store (snd (get_all_flash_messages false None late))) = None /\
  Dict.get "M"
    (the_store (snd (flash_message "New message" "positive" None full))) = None /\
  has_flash_messages (Some "unflagged") late = (Ret true, late) /\
  has_flash_messages None late = (Ret true, late) /\
  (exists x,
     render true no_consumed = Ret x /\
     In x [CatMsg "positive" "Unflagged"] /\
     exists d',
       Dict.get "unflagged"
         (the_store (snd (get_all_flash_messages true (Some ["positive"]) late)))
       = Some d' /\
       consumed d' = Some true /\ message d' = message no_consumed /\
       category d' = category no_consumed /\
       timestamp d' = timestamp no_consumed) /\
  fst (perform (GetAll true (Some ["positive"])) late) = None.
Proof.
  intros early late full.
  assert (Hwf : Dict.wf (the_store early)) by (apply distinct_NoDup; reflexivity).
  assert (Hwfl : Dict.wf (the_store late)) by (apply distinct_NoDup; reflexivity).
  assert (Hwff : Dict.wf (the_store full)) by (apply distinct_NoDup; reflexivity).
  assert (Hearly : now early < MAX_MESSAGE_AGE) by reflexivity.
  assert (Hearlyf : now full < MAX_MESSAGE_AGE) by reflexivity.
  assert (Hlate : MAX_MESSAGE_AGE <= now late) by (vm_compute; discriminate).
  assert (Hfull : (MAX_MESSAGES_PER_SESSION
                   <= length (sweep (now full) (the_store full)))%nat).
  { vm_compute. constructor. }
  assert (Hall : all_text (the_store late)) by (repeat constructor).
  assert (Hothers : forall k' d', k' <> "M" ->
                      Dict.get k' (the_store full) = Some d' ->
                      exists t, timestamp d' = Some t /\ 0 < t).
  { intros k' d' Hne G. apply DictFacts.get_In in G. cbv in G.
    repeat (destruct G as [G|G];
            [injection G as <- <-;
             first [eexists; split; [reflexivity | reflexivity]
                   | exfalso; apply Hne; reflexivity]|]).
    destruct G. }
  assert (Hid : forall w0 : world, request_path w0 = Some "/test" ->
                  uuids w0 = uuids early -> uuid_draws w0 = 0%nat ->
                  forall k0, (k0 = "undated" \/ k0 = "M") ->
                             used_id None w0 <> k0).
  { intros w0 Hp Hu Hd k0 Hk. unfold used_id. rewrite Hp, Hu, Hd.
    destruct Hk as [-> | ->]; discriminate. }
  destruct (@defaults_for_missing_fields early "/test" "undated" no_timestamp
              (Has None) eq_refl Hwf eq_refl) as (HtE & _ & _).
  destruct (HtE eq_refl) as (HsweepE & _ & _).
  destruct (@defaults_for_missing_fields late "/test" "undated" no_timestamp
              (Has None) eq_refl Hwfl eq_refl) as (HtL & _ & _).
  destruct (HtL eq_refl) as (HsweepL & HdropL & _).
  destruct (HdropL Hlate) as (HflashL & HallL).
  destruct (@defaults_for_missing_fields full "/test" "M" no_timestamp
              (Has None) eq_refl Hwff eq_refl) as (HtF & _ & _).
  destruct (HtF eq_refl) as (_ & _ & HevictF).
  destruct (@defaults_for_missing_fields late "/test" "unflagged" no_consumed
              (GetAll true (Some ["positive"])) eq_refl Hwfl eq_refl)
    as (_ & HcL & HraiseL).
  destruct (HcL eq_refl) as (HhasL & HanyL & HloopL).
  split; [repeat split; assumption|].
  split; [intros res Hres; now apply (HsweepE res Hres)|].
  split.
  { intros res Hres Hin. apply (HsweepL res Hres) in Hin.
    unfold late in Hin. vm_compute in Hin. discriminate Hin. }
  split.
  { apply (HflashL "New message" "positive" None).
    apply (Hid late eq_refl eq_refl eq_refl). now left. }
  split.
  { exact (proj2 (proj2 (HallL false None _ _ eq_refl))). }
  split.
  { apply (HevictF Hearlyf Hfull Hothers "New message" "positive" None).
    apply (Hid full eq_refl eq_refl eq_refl). now right. }
  split; [exact HhasL|]. split; [exact HanyL|]. split.
  - destruct (HloopL true (Some ["positive"])
                [CatMsg "positive" "Unflagged"]
                (snd (get_all_flash_messages true (Some ["positive"]) late)))
      as (x & Hx & Hinx & Hd').
    + vm_compute. reflexivity.
    + intros x l [= <- <-]. exists "positive". split; [reflexivity | now left].
    + reflexivity.
    + exists x. auto.
  - exact (HraiseL Hall).
Defined.

(** C9, as stated, fails twice.  A record without [message] makes
    [get_flash_messages] raise [KeyError]; and a record without [timestamp]
    is not of age zero: with the clock at 1000 the sweep of
    [get_all_flash_messages] drops it unreturned. *)
Lemma missing_fields_not_tolerated :
  fst (get_flash_messages "/test:A" false None
         (demo_world (Some [("/test:A", no_message)]) 1000))
  = Raise (KeyError "message") /\
  (let r := get_all_flash_messages false None
              (demo_world (Some [("/test:A", no_timestamp)]) 1000) in
   fst r = Ret [] /\ session (snd r) = Some []).
Proof. repeat split. Qed.

(** C5, as the code has it.  The sweep keeps exactly the records younger
    than [MAX_MESSAGE_AGE] and drops the others.  A record stamped [T] that
    the clock finds at [now - T >= MAX_MESSAGE_AGE] is out of the persisted
    mapping after a [flash_message] that stores under another request id,
    and after a [get_all_flash_messages] that returns, which does not return
    it; after either, [has_flash_messages] of its id is false and no later
    [get_all_flash_messages] returns it. *)
Theorem expired_record_swept (w : world) (path k : string) (d : msg_data) (T : Z) :
  request_path w = Some path ->
  Dict.wf (the_store w) ->
  Dict.get k (the_store w) = Some d ->
  timestamp d = Some T ->
  now w - T >= MAX_MESSAGE_AGE ->
  (fst (_cleanup_old_messages (the_store w) w) = Ret (sweep (now w) (the_store w)) /\
   forall kv,
     In kv (sweep (now w) (the_store w)) <->
     In kv (the_store w) /\ now w - get_timestamp (snd kv) < MAX_MESSAGE_AGE) /\
  (forall msg cat request_id,
     used_id request_id w <> k ->
     gone k (snd (flash_message msg cat request_id w))) /\
  (forall with_categories category_filter res w',
     get_all_flash_messages with_categories category_filter w = (Ret res, w') ->
     res = rendered with_categories
             (picked category_filter (sweep (now w) (the_store w))) /\
     ~ In k (Dict.keys (picked category_filter (sweep (now w) (the_store w)))) /\
     gone k w').
Proof.
  intros Hctx Hwf Hget HT Hold.
  assert (Hexp : fresh_at (now w) d = false).
  { apply fresh_at_false. unfold get_timestamp. now rewrite HT. }
  assert (Hswept : Dict.get k (sweep (now w) (the_store w)) = None).
  { rewrite get_sweep by assumption. now rewrite Hget, Hexp. }
  split; [split; [apply _cleanup_old_messages_run | intros kv; apply sweep_In]|].
  split.
  - intros msg cat rid Hne.
    rewrite flash_message_run with (path := path) by assumption. cbn [snd].
    apply absent_gone.
    destruct (Dict.get k (the_store (after_flash msg cat rid w))) as [d'|] eqn:G;
      [|reflexivity].
    apply get_after_flash_other in G as [G F]; try assumption.
    congruence.
  - intros wc F res w' Hrun.
    apply get_all_flash_messages_ret with (path := path) in Hrun
        as (Hs & Hres & _ & _); [|assumption].
    split; [assumption|]. split.
    + intros Hin. apply DictFacts.get_None_keys in Hswept. apply Hswept.
      unfold picked in Hin. now apply DictFacts.keys_filter_incl in Hin.
    + apply absent_gone. rewrite Hs, get_mark, Hswept. reflexivity.
Qed.

Lemma expired_record_swept_witness :
  let w := demo_world (Some [("/test:Q", positive_1000)]) 1400 in
  (request_path w = Some "/test" /\ Dict.wf (the_store w) /\
   Dict.get "/test:Q" (the_store w) = Some positive_1000 /\
   timestamp positive_1000 = Some 1000 /\
   now w - 1000 >= MAX_MESSAGE_AGE /\
   used_id None w <> "/test:Q" /\
   get_all_flash_messages false None w
   = (Ret [], snd (get_all_flash_messages false None w))) /\
  gone "/test:Q" (snd (flash_message "New message" "positive" None w)) /\
  gone "/test:Q" (snd (get_all_flash_messages false None w)).
Proof.
  intros w.
  assert (Hwf : Dict.wf (the_store w)).
  { repeat constructor. intros []. }
  assert (Hold : now w - 1000 >= MAX_MESSAGE_AGE).
  { vm_compute. discriminate. }
  assert (Hfresh : used_id None w <> "/test:Q").
  { intros H. vm_compute in H. discriminate H. }
  destruct (@expired_record_swept w "/test" "/test:Q" positive_1000 1000
              eq_refl Hwf eq_refl eq_refl Hold) as (_ & Hflash & Hall).
  split; [repeat split; assumption|].
  split; [exact (Hflash "New message" "positive" None Hfresh)|].
  exact (proj2 (proj2 (Hall false None [] _ eq_refl))).
Defined.

(** C5, as stated, fails in two places.  A [flash_message] that stores under
    the id of the expired record sweeps that record and puts a new one under
    the same id, so [has_flash_messages] of the id is true.  And a
    [get_all_flash_messages] stopped by a [KeyError] never writes the swept
    mapping back: the expired record stays in the session. *)
Lemma expired_id_still_present :
  (let w := demo_world (Some [("/test:A", positive_1000)]) 1400 in
   let w' := snd (flash_message "New message" "positive" (Some "/test:A") w) in
   now w - 1000 >= MAX_MESSAGE_AGE /\
   has_flash_messages (Some "/test:A") w' = (Ret true, w')) /\
  (let w := demo_world (Some [("/test:A", new_record "Old message" "positive" 900);
                              ("/test:B", no_message)]) 1030 in
   let r := get_all_flash_messages false None w in
   now w - 900 >= MAX_MESSAGE_AGE /\
   fst r = Raise (KeyError "message") /\
   Dict.get "/test:A" (the_store (snd r))
   = Some (new_record "Old message" "positive" 900) /\
   has_flash_messages (Some "/test:A") (snd r) = (Ret true, snd r)).
Proof.
  split.
  - split; [vm_compute; discriminate | reflexivity].
  - split; [vm_compute; discriminate | repeat split].
Qed.

(** C4. Two calls of [get_all_flash_messages], with any calls other than
    [flash_message] between them, never return the message of the same
    record twice: what the first call returned is consumed, and stays so.
    A record that the first call's category filter excluded is left exactly
    as it was, unconsumed, and a call made next whose filter lets its
    category through returns it (if that call's sweep still finds it
    young enough).  On a store of complete records both calls return. *)
Theorem get_all_never_twice (w : world) (path : string) (wc1 wc2 : bool)
    (F1 F2 : option (list string)) (between : list call) :
  request_path w = Some path ->
  Dict.wf (the_store w) ->
  Forall (fun c => is_flash c = false) between ->
  let r1 := get_all_flash_messages wc1 F1 w in
  let w1 := perform_all between (snd r1) in
  let r2 := get_all_flash_messages wc2 F2 w1 in
  let first := picked F1 (sweep (now w) (the_store w)) in
  let second := picked F2 (sweep (now w1) (the_store w1)) in
  (all_text (the_store w) ->
   exists res1 res2, fst r1 = Ret res1 /\ fst r2 = Ret res2) /\
  (forall res1 res2,
     fst r1 = Ret res1 -> fst r2 = Ret res2 ->
     res1 = rendered wc1 first /\
     res2 = rendered wc2 second /\
     (forall k, In k (Dict.keys first) -> ~ In k (Dict.keys second)) /\
     (forall k d,
        Dict.get k (sweep (now w) (the_store w)) = Some d ->
        excluded F1 d = Ret true ->
        Dict.get k (the_store (snd r1)) = Some d /\
        (between = [] -> unconsumed d = true -> excluded F2 d = Ret false ->
         fresh_at (now w1) d = true ->
         In (k, d) second /\
         forall x, render wc2 d = Ret x -> In x res2))).
Proof.
  intros Hctx Hwf Hbetween r1 w1 r2 first second.
  assert (Hr1 : snd r1 = snd (perform (GetAll wc1 F1) w)).
  { cbn [perform]. now rewrite snd_raised. }
  assert (Hwf1 : Dict.wf (the_store (snd r1))).
  { rewrite Hr1. now apply wf_perform. }
  destruct (perform_all_between Hbetween (snd r1) Hwf1) as (Hp1 & Hwfw1 & Ht1 & Hs1).
  fold w1 in Hp1, Hwfw1, Ht1, Hs1.
  assert (Hctx1 : request_path w1 = Some path).
  { rewrite Hp1, Hr1, request_path_perform. exact Hctx. }
  split.
  - intros Hall.
    destruct (get_all_flash_messages_returns wc1 F1 w Hall) as [res1 H1].
    assert (Hall1 : all_text (the_store w1)).
    { apply Ht1. rewrite Hr1. now apply all_text_perform. }
    destruct (get_all_flash_messages_returns wc2 F2 w1 Hall1) as [res2 H2].
    eauto.
  - intros res1 res2 H1 H2.
    assert (E1 : get_all_flash_messages wc1 F1 w = (Ret res1, snd r1)).
    { unfold r1 in *. destruct (get_all_flash_messages wc1 F1 w). simpl in *.
      now subst. }
    assert (E2 : get_all_flash_messages wc2 F2 w1 = (Ret res2, snd r2)).
    { unfold r2 in *. destruct (get_all_flash_messages wc2 F2 w1). simpl in *.
      now subst. }
    apply get_all_flash_messages_ret with (path := path) in E1
        as (Hst1 & Hres1 & _ & _); [|assumption].
    apply get_all_flash_messages_ret with (path := path) in E2
        as (_ & Hres2 & _ & _); [|assumption].
    split; [exact Hres1|]. split; [exact Hres2|]. split.
    + intros k Hk1 Hk2.
      apply picked_unspent in Hk1 as [d1 [G1 P1]]; [|now apply wf_sweep].
      apply picked_unspent in Hk2 as [d2 [G2 P2]]; [|now apply wf_sweep].
      assert (Hspent : spent k (the_store w1)).
      { apply Hs1. unfold spent. rewrite Hst1, get_mark, G1. cbn [option_map].
        now rewrite P1. }
      unfold spent in Hspent. rewrite get_sweep in G2 by assumption.
      destruct (Dict.get k (the_store w1)) as [d|]; [|discriminate].
      destruct (fresh_at (now w1) d); [|discriminate].
      injection G2 as ->. now apply picks_not_consumed in P2.
    + intros k d G Hex.
      assert (Hnp : picks F1 d = false).
      { unfold picks. rewrite Hex. apply andb_false_r. }
      assert (Gk : Dict.get k (the_store (snd r1)) = Some d).
      { rewrite Hst1, get_mark, G. cbn [option_map]. now rewrite Hnp. }
      split; [exact Gk|].
      intros Hnil Hun Hin2 Hfresh.
      assert (Hw1 : w1 = snd r1) by (unfold w1; now rewrite Hnil).
      assert (Hin : In (k, d) second).
      { unfold second, picked. apply filter_In. split.
        - apply sweep_In. split.
          + apply DictFacts.get_In. now rewrite Hw1.
          + unfold fresh_at in Hfresh. now apply Z.ltb_lt in Hfresh.
        - cbn [snd]. unfold picks. now rewrite Hun, Hin2. }
      split; [exact Hin|].
      intros x Hx. rewrite Hres2. now apply In_rendered with (k := k) (d := d).
Qed.

Lemma get_all_never_twice_witness :
  let w := demo_world (Some [("/test:A", positive_1000);
                             ("/test:B", negative_1000)]) 1010 in
  let r1 := get_all_flash_messages false (Some ["negative"]) w in
  let w1 := perform_all [Has None] (snd r1) in
  let r2 := get_all_flash_messages true None w1 in
  let r2' := get_all_flash_messages true (Some ["positive"]) (snd r1) in
  (request_path w = Some "/test" /\ Dict.wf (the_store w) /\
   all_text (the_store w) /\
   Forall (fun c => is_flash c = false) [Has None] /\
   fst r1 = Ret [Msg "Negative message"] /\
   fst r2 = Ret [CatMsg "positive" "Positive message"] /\
   fst r2' = Ret [CatMsg "positive" "Positive message"] /\
   Dict.get "/test:A" (sweep (now w) (the_store w)) = Some positive_1000 /\
   excluded (Some ["negative"]) positive_1000 = Ret true /\
   unconsumed positive_1000 = true /\
   excluded (Some ["positive"]) positive_1000 = Ret false /\
   fresh_at (now (snd r1)) positive_1000 = true) /\
  (exists res1 res2, fst r1 = Ret res1 /\ fst r2 = Ret res2) /\
  (forall k,
     In k (Dict.keys (picked (Some ["negative"]) (sweep (now w) (the_store w)))) ->
     ~ In k (Dict.keys (picked None (sweep (now w1) (the_store w1))))) /\
  Dict.get "/test:A" (the_store (snd r1)) = Some positive_1000 /\
  In (CatMsg "positive" "Positive message")
     [CatMsg "positive" "Positive message"].
Proof.
  intros w r1 w1 r2 r2'.
  assert (Hwf : Dict.wf (the_store w)).
  { repeat constructor; simpl; intuition discriminate. }
  assert (Hall : all_text (the_store w)) by (repeat constructor).
  assert (Hb : Forall (fun c => is_flash c = false) [Has None]).
  { repeat constructor. }
  split; [repeat split; assumption|].
  destruct (@get_all_never_twice w "/test" false true (Some ["negative"])
              None [Has None] eq_refl Hwf Hb) as (Hreturns & Hnever).
  destruct (Hnever [Msg "Negative message"] [CatMsg "positive" "Positive message"]
              eq_refl eq_refl) as (_ & _ & Hdisjoint & _).
  destruct (@get_all_never_twice w "/test" false true (Some ["negative"])
              (Some ["positive"]) [] eq_refl Hwf (Forall_nil _)) as (_ & Hnext).
  destruct (Hnext [Msg "Negative message"] [CatMsg "positive" "Positive message"]
              eq_refl eq_refl) as (_ & _ & _ & Hkept).
  destruct (Hkept "/test:A" positive_1000 eq_refl eq_refl) as (Hsame & Hlater).
  destruct (Hlater eq_refl eq_refl eq_refl eq_refl) as (_ & Hreturned).
  split; [exact (Hreturns Hall)|]. split; [exact Hdisjoint|].
  split; [exact Hsame|].
  exact (Hreturned (CatMsg "positive" "Positive message") eq_refl).
Defined.

(** C2, as the code has it.  [flash_message] evicts one record at most, so
    the mapping it leaves holds at most [MAX_MESSAGES_PER_SESSION] records
    when the mapping it found did, and never more than it found otherwise;
    every mapping the module's own calls build from a session without the
    key is within the bound.  Inserting [MAX_MESSAGES_PER_SESSION + 1]
    messages under distinct ids into an empty mapping, with strictly
    increasing timestamps and none of them expired at any sweep, leaves
    exactly the last [MAX_MESSAGES_PER_SESSION] of them: the first one,
    whose timestamp is the smallest, is the one evicted. *)
Theorem capacity_after_insertion :
  (forall w msg cat request_id,
     (length (the_store (snd (flash_message msg cat request_id w)))
      <= Nat.max MAX_MESSAGES_PER_SESSION (length (the_store w)))%nat) /\
  (forall w msg cat request_id,
     reachable w ->
     (length (the_store (snd (flash_message msg cat request_id w)))
      <= MAX_MESSAGES_PER_SESSION)%nat) /\
  (forall w path first rest,
     request_path w = Some path ->
     the_store w = [] ->
     length (first :: rest) = S MAX_MESSAGES_PER_SESSION ->
     NoDup (request_ids (first :: rest)) ->
     (forall i j, (i < j <= MAX_MESSAGES_PER_SESSION)%nat ->
                  stamp w i < stamp w j) ->
     (forall i j, (i < j <= MAX_MESSAGES_PER_SESSION)%nat ->
                  sweep_time w j - stamp w i < MAX_MESSAGE_AGE) ->
     let kept := the_store (flash_each (first :: rest) w) in
     length kept = MAX_MESSAGES_PER_SESSION /\
     kept = tl (inserted (clock w) (clock_reads w) (first :: rest)) /\
     Dict.keys kept = request_ids rest /\
     ~ In (fst (fst first)) (Dict.keys kept) /\
     (forall kv, In kv kept -> stamp w 0 < get_timestamp (snd kv))).
Proof.
  split; [|split].
  - intros w msg cat rid.
    pose proof (length_perform (Flash msg cat rid) w) as H.
    cbn [perform] in H. rewrite snd_raised in H. exact H.
  - intros w msg cat rid Hreach.
    apply reachable_invariant in Hreach as (_ & Hlen & _).
    pose proof (length_perform (Flash msg cat rid) w) as H.
    cbn [perform] in H. rewrite snd_raised in H. lia.
  - intros w path first rest Hctx Hempty Hlen Hids Hstamps Hfresh kept.
    destruct (@flash_each_fifo path (first :: rest) w Hctx Hempty Hids)
      as (_ & _ & _ & Hs).
    { intros i j Hij. apply Hstamps. rewrite Hlen in Hij. lia. }
    { intros i j Hij. apply Hfresh. rewrite Hlen in Hij. lia. }
    fold kept in Hs.
    rewrite keep_last_one_more in Hs by (now rewrite length_inserted).
    assert (Hkeys : Dict.keys kept = request_ids rest).
    { rewrite Hs. destruct first as [[rid msg] cat]. cbn [inserted tl].
      apply keys_inserted. }
    repeat split.
    + rewrite Hs. destruct first as [[rid msg] cat]. cbn [inserted tl].
      rewrite length_inserted. simpl in Hlen. lia.
    + exact Hs.
    + exact Hkeys.
    + rewrite Hkeys. cbn [request_ids map] in Hids. now inversion Hids.
    + intros kv Hkv. rewrite Hs in Hkv.
      destruct first as [[rid msg] cat]. cbn [inserted tl] in Hkv.
      apply In_inserted in Hkv as [i [Hi Ht]]. rewrite Ht.
      assert (H' := Hstamps 0%nat (S i)
                      ltac:(simpl in Hlen; split; [lia | lia])).
      unfold stamp in *. same_readings H'.
Qed.

Lemma capacity_after_insertion_witness :
  let w := demo_world None 1000 in
  (reachable w /\ request_path w = Some "/test" /\ the_store w = [] /\
   length alphabet = S MAX_MESSAGES_PER_SESSION /\
   NoDup (request_ids alphabet)) /\
  (length (the_store (snd (flash_message "Text" "information" None w)))
   <= MAX_MESSAGES_PER_SESSION)%nat /\
  length (the_store (flash_each alphabet w)) = MAX_MESSAGES_PER_SESSION /\
  Dict.keys (the_store (flash_each alphabet w)) = request_ids (tl alphabet) /\
  ~ In "A" (Dict.keys (the_store (flash_each alphabet w))).
Proof.
  intros w.
  assert (Hreach : reachable w) by (now apply reach_new).
  assert (Hids : NoDup (request_ids alphabet)).
  { apply distinct_NoDup. reflexivity. }
  assert (Hstamps : forall i j, (i < j <= MAX_MESSAGES_PER_SESSION)%nat ->
                                stamp w i < stamp w j).
  { intros i j Hij. unfold stamp, w, demo_world. cbn [clock clock_reads]. lia. }
  assert (Hfresh : forall i j, (i < j <= MAX_MESSAGES_PER_SESSION)%nat ->
                               sweep_time w j - stamp w i < MAX_MESSAGE_AGE).
  { intros i j Hij. unfold sweep_time, stamp, w, demo_world.
    cbn [clock clock_reads]. unfold MAX_MESSAGE_AGE, MAX_MESSAGES_PER_SESSION in *.
    lia. }
  destruct capacity_after_insertion as (_ & Hbound & Hrun).
  destruct (Hrun w "/test" ("A", "Text", "information") (tl alphabet)
              eq_refl eq_refl eq_refl Hids Hstamps Hfresh)
    as (Hlen & _ & Hkeys & Hgone & _).
  split; [repeat split; assumption|].
  split; [exact (Hbound w "Text" "information" None Hreach)|].
  split; [exact Hlen|]. split; [exact Hkeys | exact Hgone].
Defined.

(** C2, as stated, fails on a mapping that is already over the bound:
    with twenty-six young records in the session, [flash_message] evicts
    one and adds one, and twenty-six are left. *)
Lemma crowded_stays_crowded :
  let w := demo_world (Some crowded) 1030 in
  let w' := snd (flash_message "New message" "positive" None w) in
  sweep (now w) (the_store w) = the_store w /\
  length (the_store w) = 26%nat /\
  length (the_store w') = 26%nat /\
  (MAX_MESSAGES_PER_SESSION < length (the_store w'))%nat.
Proof.
  repeat split. vm_compute. lia.
Qed.

(** ** Further properties of the module

    Properties of the same functions beyond the stated claims. *)

(** *** Helper facts *)

Lemma keys_del (V : Type) k (d : list (string * V)) :
  Dict.keys (Dict.del k d)
  = filter (fun k' => negb (String.eqb k' k)) (Dict.keys d).
Proof.
  unfold Dict.del, Dict.keys. induction d as [|[k' v] d IH]; simpl; [reflexivity|].
  destruct (String.eqb k' k); simpl; now rewrite IH.
Qed.

Lemma set_set (V : Type) k (v : V) d :
  Dict.set k v (Dict.set k v d) = Dict.set k v d.
Proof.
  induction d as [|[k' v'] d IH]; simpl.
  - now rewrite String.eqb_refl.
  - destruct (String.eqb k' k) eqn:E; simpl.
    + now rewrite String.eqb_refl.
    + now rewrite E, IH.
Qed.

Lemma mem_false_get (V : Type) k (d : list (string * V)) :
  Dict.mem k d = false <-> Dict.get k d = None.
Proof. unfold Dict.mem. destruct (Dict.get k d); split; congruence. Qed.

Lemma request_path_after_clear request_id w :
  request_path (after_clear request_id w) = request_path w.
Proof.
  unfold after_clear. destruct request_id as [r|]; [|reflexivity].
  now destruct (Dict.mem r (the_store w)).
Qed.

Lemma get_all_flash_messages_empty with_categories category_filter w :
  the_store w = [] ->
  fst (get_all_flash_messages with_categories category_filter w) = Ret [].
Proof.
  intros Hempty. destruct (request_path w) as [path|] eqn:Hctx.
  - rewrite get_all_flash_messages_run with (path := path) by assumption.
    now rewrite Hempty.
  - unfold get_all_flash_messages, has_request_context, bind, ret.
    now rewrite Hctx.
Qed.

(** X1. [clear_flash_messages()] without an id replaces the mapping by an
    empty one: afterwards both forms of [has_flash_messages] are false and
    both retrieval functions return the empty sequence, for every id and
    every filter. *)
Theorem clear_all_empties (w : world) (path : string) :
  request_path w = Some path ->
  let w' := snd (clear_flash_messages None w) in
  fst (clear_flash_messages None w) = Ret tt /\
  session w' = Some [] /\
  has_flash_messages None w' = (Ret false, w') /\
  (forall k with_categories category_filter,
     has_flash_messages (Some k) w' = (Ret false, w') /\
     get_flash_messages k with_categories category_filter w' = (Ret [], w')) /\
  (forall with_categories category_filter,
     fst (get_all_flash_messages with_categories category_filter w') = Ret []).
Proof.
  intros Hctx w'. unfold w'.
  rewrite clear_flash_messages_run with (path := path) by assumption.
  cbn [fst snd after_clear].
  assert (Hctx' : request_path (with_session (Some []) w) = Some path) by exact Hctx.
  repeat split.
  - now rewrite has_flash_messages_run with (path := path).
  - now rewrite has_flash_messages_run with (path := path).
  - now apply get_flash_messages_absent.
  - intros wc F. now apply get_all_flash_messages_empty.
Qed.

Lemma clear_all_empties_witness :
  let w := demo_world (Some [("/test:A", positive_1000);
                             ("/test:B", negative_1000)]) 1010 in
  let w' := snd (clear_flash_messages None w) in
  request_path w = Some "/test" /\
  session w' = Some [] /\
  has_flash_messages None w' = (Ret false, w') /\
  fst (get_all_flash_messages true None w') = Ret [].
Proof.
  intros w w'. split; [reflexivity|].
  destruct (@clear_all_empties w "/test" eq_refl) as (_ & Hs & Hany & _ & Hall).
  split; [exact Hs|]. split; [exact Hany | exact (Hall true None)].
Defined.

(** X2. [clear_flash_messages(request_id)] removes that key and nothing
    else: the other keys keep their records and their order; afterwards
    the id has no message left.  When the id is not in the mapping the
    whole state is left as it was. *)
Theorem clear_one_removes_only_that (w : world) (path r : string) :
  request_path w = Some path ->
  let w' := snd (clear_flash_messages (Some r) w) in
  fst (clear_flash_messages (Some r) w) = Ret tt /\
  Dict.get r (the_store w') = None /\
  (forall k, k <> r -> Dict.get k (the_store w') = Dict.get k (the_store w)) /\
  Dict.keys (the_store w')
  = filter (fun k => negb (String.eqb k r)) (Dict.keys (the_store w)) /\
  (Dict.get r (the_store w) = None -> w' = w) /\
  has_flash_messages (Some r) w' = (Ret false, w') /\
  (forall with_categories category_filter,
     get_flash_messages r with_categories category_filter w' = (Ret [], w')).
Proof.
  intros Hctx w'. unfold w'.
  rewrite clear_flash_messages_run with (path := path) by assumption.
  cbn [fst snd].
  assert (Hctx' : request_path (after_clear (Some r) w) = Some path).
  { now rewrite request_path_after_clear. }
  assert (Hgone : Dict.get r (the_store (after_clear (Some r) w)) = None).
  { unfold after_clear. destruct (Dict.mem r (the_store w)) eqn:M.
    - unfold the_store at 1. cbn [session with_session].
      apply DictFacts.get_del_eq.
    - now apply mem_false_get. }
  repeat split.
  - exact Hgone.
  - intros k Hk. unfold after_clear. destruct (Dict.mem r (the_store w)).
    + unfold the_store at 1. cbn [session with_session].
      apply DictFacts.get_del_ne. congruence.
    + reflexivity.
  - unfold after_clear. destruct (Dict.mem r (the_store w)) eqn:M.
    + unfold the_store at 1. cbn [session with_session]. apply keys_del.
    + apply mem_false_get, DictFacts.get_None_keys in M.
      symmetry. apply filter_all. intros k Hk.
      apply negb_true_iff, String.eqb_neq. intros ->. contradiction.
  - intros Hnone. unfold after_clear.
    apply mem_false_get in Hnone. now rewrite Hnone.
  - rewrite has_flash_messages_run with (path := path) by assumption.
    now rewrite Hgone.
  - intros wc F. now apply get_flash_messages_absent.
Qed.

Lemma clear_one_removes_only_that_witness :
  let w := demo_world (Some [("/test:A", positive_1000);
                             ("/test:B", negative_1000)]) 1010 in
  let w' := snd (clear_flash_messages (Some "/test:A") w) in
  request_path w = Some "/test" /\
  Dict.get "/test:A" (the_store w') = None /\
  Dict.get "/test:B" (the_store w') = Some negative_1000 /\
  Dict.keys (the_store w') = ["/test:B"].
Proof.
  intros w w'. split; [reflexivity|].
  destruct (@clear_one_removes_only_that w "/test" "/test:A" eq_refl)
    as (_ & Hgone & Hother & Hkeys & _).
  split; [exact Hgone|]. split; [|exact Hkeys].
  apply (Hother "/test:B"). discriminate.
Defined.

(** X3. [has_flash_messages()] without an id is true exactly when some
    record of the mapping has a stored [consumed] field that is not [True]:
    [False], or missing.  It is false when every record has
    [consumed = True], and on an empty mapping.  The call leaves the state
    as it was. *)
Theorem has_flash_messages_any (w : world) (path : string) :
  request_path w = Some path ->
  exists b,
    has_flash_messages None w = (Ret b, w) /\
    (b = true <->
     exists k d, In (k, d) (the_store w) /\
                 (consumed d = Some false \/ consumed d = None)) /\
    ((forall k d, In (k, d) (the_store w) -> consumed d = Some true) ->
     b = false).
Proof.
  intros Hctx. rewrite has_flash_messages_run with (path := path) by assumption.
  eexists. split; [reflexivity|].
  assert (Hiff : existsb unconsumed (Dict.values (the_store w)) = true <->
                 exists k d, In (k, d) (the_store w) /\
                             (consumed d = Some false \/ consumed d = None)).
  { rewrite existsb_exists. split.
    - intros [d [Hin Hd]]. unfold Dict.values in Hin.
      apply in_map_iff in Hin as [[k d'] [<- Hin]].
      exists k, d'. split; [assumption|]. cbn [snd] in Hd.
      unfold unconsumed, get_consumed in Hd.
      destruct (consumed d') as [[|]|]; [discriminate | auto | auto].
    - intros [k [d [Hin Hd]]]. exists d. split.
      + unfold Dict.values. change d with (snd (k, d)). now apply in_map.
      + unfold unconsumed, get_consumed. now destruct Hd as [-> | ->]. }
  split; [exact Hiff|].
  intros Hall. apply not_true_is_false. intros Hb.
  apply Hiff in Hb as [k [d [Hin Hd]]]. specialize (Hall k d Hin).
  destruct Hd; congruence.
Qed.

Lemma has_flash_messages_any_witness :
  let w := demo_world (Some [("/test:A", set_consumed positive_1000);
                             ("/test:B", no_consumed)]) 1010 in
  let w0 := demo_world (Some [("/test:A", set_consumed positive_1000);
                              ("/test:B", set_consumed negative_1000)]) 1010 in
  (request_path w = Some "/test" /\ request_path w0 = Some "/test" /\
   In ("/test:B", no_consumed) (the_store w) /\ consumed no_consumed = None /\
   consumed (set_consumed positive_1000) = Some true /\
   consumed (set_consumed negative_1000) = Some true) /\
  has_flash_messages None w = (Ret true, w) /\
  has_flash_messages None w0 = (Ret false, w0).
Proof.
  intros w w0.
  assert (Hin : In ("/test:B", no_consumed) (the_store w)) by (right; now left).
  split; [repeat split; exact Hin|].
  destruct (@has_flash_messages_any w "/test" eq_refl) as (b & Hrun & Hiff & _).
  destruct (@has_flash_messages_any w0 "/test" eq_refl) as (b0 & Hrun0 & _ & Hall).
  assert (Hb : b = true).
  { apply Hiff. exists "/test:B", no_consumed. split; [exact Hin | now right]. }
  assert (Hb0 : b0 = false).
  { apply Hall. intros k d [[= <- <-]|[[= <- <-]|[]]]; reflexivity. }
  rewrite Hb in Hrun. rewrite Hb0 in Hrun0. split; assumption.
Defined.

(** X4. Right after [flash_message], the id it returned holds the new
    record, unconsumed and stamped with the call's second clock reading,
    and both forms of [has_flash_messages] are true. *)
Theorem flash_then_has (w : world) (path msg cat : string)
    (request_id : option string) :
  request_path w = Some path ->
  let w1 := snd (flash_message msg cat request_id w) in
  exists id,
    fst (flash_message msg cat request_id w) = Ret id /\
    Dict.get id (the_store w1)
    = Some {| message := Some msg; category := Some cat;
              timestamp := Some (clock w (S (clock_reads w)));
              consumed := Some false |} /\
    has_flash_messages (Some id) w1 = (Ret true, w1) /\
    has_flash_messages None w1 = (Ret true, w1).
Proof.
  intros Hctx w1. unfold w1.
  rewrite flash_message_run with (path := path) by assumption. cbn [fst snd].
  exists (used_id request_id w).
  assert (Hget : Dict.get (used_id request_id w)
                   (the_store (after_flash msg cat request_id w))
                 = Some (new_record msg cat (clock w (S (clock_reads w))))).
  { rewrite the_store_after_flash. apply DictFacts.get_set_eq. }
  repeat split.
  - exact Hget.
  - rewrite has_flash_messages_run with (path := path) by exact Hctx.
    now rewrite Hget.
  - rewrite has_flash_messages_run with (path := path) by exact Hctx.
    f_equal. f_equal. apply existsb_exists.
    exists (new_record msg cat (clock w (S (clock_reads w)))).
    split; [|reflexivity].
    apply DictFacts.get_In in Hget. unfold Dict.values.
    apply in_map_iff. eexists. split; [|exact Hget]. reflexivity.
Qed.

Lemma flash_then_has_witness :
  let w := demo_world None 1000 in
  let w1 := snd (flash_message "Test message" "positive" None w) in
  request_path w = Some "/test" /\
  exists id,
    fst (flash_message "Test message" "positive" None w) = Ret id /\
    Dict.get id (the_store w1)
    = Some {| message := Some "Test message"; category := Some "positive";
              timestamp := Some (clock w (S (clock_reads w)));
              consumed := Some false |} /\
    has_flash_messages (Some id) w1 = (Ret true, w1) /\
    has_flash_messages None w1 = (Ret true, w1).
Proof.
  intros w w1. split; [reflexivity|].
  exact (@flash_then_has w "/test" "Test message" "positive" None eq_refl).
Defined.

(** X5. [get_flash_messages] changes one flag at most.  Whatever it
    returns or raises, the mapping keeps its keys and their order, every
    other key keeps its record, and the record looked up keeps its message,
    category and timestamp; no clock reading and no uuid is consumed.  An
    id that is not in the mapping gives the empty sequence and leaves the
    whole state as it was. *)
Theorem get_changes_one_flag (w : world) (path r : string)
    (with_categories : bool) (category_filter : option (list string)) :
  request_path w = Some path ->
  let w' := snd (get_flash_messages r with_categories category_filter w) in
  Dict.keys (the_store w') = Dict.keys (the_store w) /\
  (forall k, k <> r -> Dict.get k (the_store w') = Dict.get k (the_store w)) /\
  (forall d, Dict.get r (the_store w) = Some d ->
     exists d', Dict.get r (the_store w') = Some d' /\
                message d' = message d /\ category d' = category d /\
                timestamp d' = timestamp d /\ consumed d' = Some true) /\
  (Dict.get r (the_store w) = None ->
   get_flash_messages r with_categories category_filter w = (Ret [], w)) /\
  clock_reads w' = clock_reads w /\ uuid_draws w' = uuid_draws w.
Proof.
  intros Hctx w'. unfold w'.
  destruct (Dict.get r (the_store w)) as [d|] eqn:G.
  - rewrite get_flash_messages_run with (path := path) (d := d) by assumption.
    cbn [snd]. rewrite the_store_after_get with (d := d) by assumption.
    repeat split.
    + apply DictFacts.keys_set_mem. congruence.
    + intros k Hk. apply DictFacts.get_set_ne. congruence.
    + intros d0 [= <-]. exists (set_consumed d).
      rewrite DictFacts.get_set_eq. repeat split.
    + discriminate.
    + unfold after_get. now rewrite G.
    + unfold after_get. now rewrite G.
  - rewrite get_flash_messages_absent by assumption. cbn [snd].
    repeat split; try reflexivity. discriminate.
Qed.

Lemma get_changes_one_flag_witness :
  let w := demo_world (Some [("/test:A", positive_1000);
                             ("/test:B", no_message)]) 1010 in
  let w' := snd (get_flash_messages "/test:B" false None w) in
  (request_path w = Some "/test" /\
   Dict.get "/test:B" (the_store w) = Some no_message /\
   fst (get_flash_messages "/test:B" false None w) = Raise (KeyError "message")) /\
  Dict.keys (the_store w') = ["/test:A"; "/test:B"] /\
  Dict.get "/test:A" (the_store w') = Some positive_1000 /\
  exists d', Dict.get "/test:B" (the_store w') = Some d' /\
             message d' = message no_message /\
             category d' = category no_message /\
             timestamp d' = timestamp no_message /\ consumed d' = Some true.
Proof.
  intros w w'. split; [repeat split|].
  destruct (@get_changes_one_flag w "/test" "/test:B" false None eq_refl)
    as (Hkeys & Hother & Hflag & _).
  split; [exact Hkeys|]. split.
  - apply (Hother "/test:A"). discriminate.
  - exact (Hflag no_message eq_refl).
Defined.

(** X6. [get_flash_messages] does not look at the [consumed] flag: the same
    call made again ends the same way, with the same result, and leaves the
    state the first call left.  A message that was read once is returned
    again. *)
Theorem get_again_same (w : world) (r : string) (with_categories : bool)
    (category_filter : option (list string)) :
  get_flash_messages r with_categories category_filter
    (snd (get_flash_messages r with_categories category_filter w))
  = get_flash_messages r with_categories category_filter w.
Proof.
  destruct (request_path w) as [path|] eqn:Hctx.
  2:{ unfold get_flash_messages, has_request_context, bind, ret.
      rewrite Hctx. cbn. now rewrite Hctx. }
  destruct (Dict.get r (the_store w)) as [d|] eqn:G.
  - rewrite get_flash_messages_run with (path := path) (d := d) (w := w)
      by assumption.
    cbn [snd].
    assert (G1 : Dict.get r (the_store (after_get r w)) = Some (set_consumed d)).
    { rewrite the_store_after_get with (d := d) by assumption.
      apply DictFacts.get_set_eq. }
    rewrite get_flash_messages_run with (path := path) (d := set_consumed d);
      [|unfold after_get; now rewrite G | exact G1].
    f_equal. unfold after_get at 1. rewrite G1.
    rewrite the_store_after_get with (d := d) by assumption.
    change (set_consumed (set_consumed d)) with (set_consumed d).
    rewrite set_set. unfold after_get. rewrite G. reflexivity.
  - rewrite (get_flash_messages_absent r with_categories category_filter w G).
    cbn [snd]. now apply get_flash_messages_absent.
Qed.

Lemma _get_request_id_run w :
  _get_request_id w
  = (Ret (used_id None w),
     {| request_path := request_path w; session := session w;
        clock := clock w; clock_reads := clock_reads w;
        uuids := uuids w; uuid_draws := S (uuid_draws w) |}).
Proof.
  destruct w as [[path|] s c cr u ud]; reflexivity.
Qed.

(** X7. [_get_request_id] draws one uuid and touches nothing else.  In a
    request context the id is the request path, a colon and the uuid, so
    two requests to the same path get the same id only when [uuid4] gives
    the same token twice; without a context the id is the bare uuid. *)
Theorem request_id_of_path_and_uuid (w1 w2 : world) :
  (request_path w1 = None ->
   fst (_get_request_id w1) = Ret (uuids w1 (uuid_draws w1))) /\
  (forall path, request_path w1 = Some path ->
     fst (_get_request_id w1)
     = Ret (path ++ ":" ++ uuids w1 (uuid_draws w1))%string) /\
  uuid_draws (snd (_get_request_id w1)) = S (uuid_draws w1) /\
  session (snd (_get_request_id w1)) = session w1 /\
  clock_reads (snd (_get_request_id w1)) = clock_reads w1 /\
  (forall path,
     request_path w1 = Some path -> request_path w2 = Some path ->
     (fst (_get_request_id w1) = fst (_get_request_id w2) <->
      uuids w1 (uuid_draws w1) = uuids w2 (uuid_draws w2))).
Proof.
  assert (Hcancel : forall p a b : string, (p ++ a = p ++ b)%string -> a = b).
  { induction p as [|c p IH]; simpl; intros a b H; [assumption|].
    injection H as H. auto. }
  rewrite !_get_request_id_run. cbn [fst snd used_id uuid_draws session clock_reads].
  repeat split.
  - intros H. now rewrite H.
  - intros path H. now rewrite H.
  - rewrite H, H0. intros [= E]. apply Hcancel in E. now injection E.
  - rewrite H, H0. intros E. now rewrite E.
Qed.

Lemma request_id_of_path_and_uuid_witness :
  let w1 := demo_world None 1000 in
  let w2 := snd (_get_request_id w1) in
  (request_path w1 = Some "/test" /\ request_path w2 = Some "/test" /\
   uuids w1 (uuid_draws w1) <> uuids w2 (uuid_draws w2)) /\
  fst (_get_request_id w1) = Ret "/test:A" /\
  fst (_get_request_id w2) = Ret "/test:B" /\
  fst (_get_request_id w1) <> fst (_get_request_id w2).
Proof.
  intros w1 w2.
  assert (Hne : uuids w1 (uuid_draws w1) <> uuids w2 (uuid_draws w2))
    by discriminate.
  destruct (request_id_of_path_and_uuid w1 w2) as (_ & H1 & _ & _ & _ & Hiff).
  destruct (request_id_of_path_and_uuid w2 w1) as (_ & H2 & _).
  split; [repeat split; assumption|].
  split; [exact (H1 "/test" eq_refl)|]. split; [exact (H2 "/test" eq_refl)|].
  intros E. apply Hne. exact (proj1 (Hiff "/test" eq_refl eq_refl) E).
Defined.

(** X8. After [get_flash_messages] on an id, with any filter and whatever
    the call returned or raised, [has_flash_messages] of that id is false,
    whether or not the record is still in the mapping. *)
Theorem get_then_has_false (w : world) (r : string) (with_categories : bool)
    (category_filter : option (list string)) :
  let w' := snd (get_flash_messages r with_categories category_filter w) in
  has_flash_messages (Some r) w' = (Ret false, w').
Proof.
  intros w'. unfold w'. destruct (request_path w) as [path|] eqn:Hctx.
  2:{ unfold get_flash_messages, has_flash_messages, has_request_context,
        bind, ret. rewrite Hctx. cbn. now rewrite Hctx. }
  destruct (Dict.get r (the_store w)) as [d|] eqn:G.
  - rewrite get_flash_messages_run with (path := path) (d := d) by assumption.
    cbn [snd].
    rewrite has_flash_messages_run with (path := path)
      by (unfold after_get; now rewrite G).
    rewrite the_store_after_get with (d := d) by assumption.
    now rewrite DictFacts.get_set_eq.
  - rewrite get_flash_messages_absent by assumption. cbn [snd].
    rewrite has_flash_messages_run with (path := path) by assumption.
    now rewrite G.
Qed.

Lemma fold_min_split (A : Type) (f : A -> Z) (l : list A) :
  forall x,
    exists pre post,
      x :: l
      = pre ++ fold_left (fun best y => if f y <? f best then y else best) l x
            :: post /\
      (forall y, In y pre ->
         f (fold_left (fun best y => if f y <? f best then y else best) l x) < f y) /\
      (forall y, In y post ->
         f (fold_left (fun best y => if f y <? f best then y else best) l x) <= f y).
Proof.
  induction l as [|y l IH]; intros x; cbn [fold_left].
  - exists [], []. repeat split; intros y [].
  - destruct (f y <? f x) eqn:E.
    + apply Z.ltb_lt in E. destruct (IH y) as (pre & post & Hsplit & Hpre & Hpost).
      exists (x :: pre), post. split; [cbn; now rewrite Hsplit|]. split; [|assumption].
      intros z [<-|Hz]; [|auto].
      destruct pre as [|p pre].
      * cbn in Hsplit. injection Hsplit as Hg _. rewrite <- Hg. assumption.
      * cbn in Hsplit. injection Hsplit as Hp _. subst p.
        specialize (Hpre y (or_introl eq_refl)). lia.
    + apply Z.ltb_ge in E. destruct (IH x) as (pre & post & Hsplit & Hpre & Hpost).
      destruct pre as [|p pre].
      * cbn in Hsplit. injection Hsplit as Hg Hl.
        exists [], (y :: post). rewrite <- Hg. split; [cbn; now rewrite Hl|].
        split; [intros z []|]. intros z [<-|Hz]; [assumption|].
        rewrite Hg. auto.
      * cbn in Hsplit. injection Hsplit as Hp Hl. subst p.
        exists (x :: y :: pre), post. split; [cbn; do 2 f_equal; exact Hl|].
        split; [|assumption].
        intros z [<-|[<-|Hz]].
        -- apply Hpre. now left.
        -- specialize (Hpre x (or_introl eq_refl)). lia.
        -- apply Hpre. now right.
Qed.

Lemma keys_split (V : Type) (d : list (string * V)) pre k post :
  Dict.keys d = pre ++ k :: post ->
  exists dpre v dpost,
    d = dpre ++ (k, v) :: dpost /\
    Dict.keys dpre = pre /\ Dict.keys dpost = post.
Proof.
  unfold Dict.keys. intros H.
  apply map_eq_app in H as (dpre & drest & -> & Hpre & Hrest).
  apply map_eq_cons in Hrest as ([k' v] & dpost & -> & Hk & Hpost).
  cbn in Hk. subst k'. eauto 7.
Qed.

(** X9. The capacity guard of [flash_message].  Below
    [MAX_MESSAGES_PER_SESSION] unexpired records nothing is evicted.  At or
    above it exactly one key is evicted: the first, in insertion order,
    among the records with the smallest timestamp; every other key keeps
    its record. *)
Theorem flash_message_eviction (w : world) (path msg cat : string)
    (request_id : option string) :
  request_path w = Some path ->
  Dict.wf (the_store w) ->
  let swept := sweep (now w) (the_store w) in
  let w' := snd (flash_message msg cat request_id w) in
  let id := used_id request_id w in
  ((length swept < MAX_MESSAGES_PER_SESSION)%nat ->
   forall k, k <> id -> Dict.get k (the_store w') = Dict.get k swept) /\
  ((MAX_MESSAGES_PER_SESSION <= length swept)%nat ->
   exists k0 d0 pre post,
     swept = pre ++ (k0, d0) :: post /\
     (forall kv, In kv pre -> get_timestamp d0 < get_timestamp (snd kv)) /\
     (forall kv, In kv post -> get_timestamp d0 <= get_timestamp (snd kv)) /\
     (k0 <> id -> Dict.get k0 (the_store w') = None) /\
     (forall k, k <> k0 -> k <> id ->
                Dict.get k (the_store w') = Dict.get k swept)).
Proof.
  intros Hctx Hwf swept w' id. unfold w'.
  rewrite flash_message_run with (path := path) by assumption. cbn [snd].
  rewrite the_store_after_flash. fold swept. fold id.
  assert (Hwfs : Dict.wf swept) by (now apply wf_sweep).
  split.
  - intros Hlen k Hk. rewrite DictFacts.get_set_ne by congruence.
    unfold evict. apply Nat.leb_gt in Hlen. now rewrite Hlen.
  - intros Hlen. unfold evict. apply Nat.leb_le in Hlen. rewrite Hlen.
    unfold oldest_key.
    destruct (Dict.keys swept) as [|k1 ks] eqn:Hkeys.
    { destruct swept; [discriminate Hlen | discriminate Hkeys]. }
    cbn [min_by].
    destruct (fold_min_split (timestamp_of swept) ks k1)
      as (pre & post & Hsplit & Hpre & Hpost).
    set (k0 := fold_left
                 (fun best y => if timestamp_of swept y <? timestamp_of swept best
                                then y else best) ks k1) in *.
    rewrite <- Hkeys in Hsplit.
    apply keys_split in Hsplit as (dpre & d0 & dpost & Hs & Hkpre & Hkpost).
    assert (Hts : forall kv, In kv swept ->
                    timestamp_of swept (fst kv) = get_timestamp (snd kv)).
    { intros [k d] Hin. unfold timestamp_of. cbn [fst snd].
      now rewrite DictFacts.In_get with (v := d). }
    assert (H0 : timestamp_of swept k0 = get_timestamp d0).
    { apply (Hts (k0, d0)). rewrite Hs. apply in_or_app. right. now left. }
    exists k0, d0, dpre, dpost. repeat split.
    + exact Hs.
    + intros kv Hin. rewrite <- H0, <- Hts.
      * apply Hpre. rewrite <- Hkpre. now apply in_map.
      * rewrite Hs. apply in_or_app. now left.
    + intros kv Hin. rewrite <- H0, <- Hts.
      * apply Hpost. rewrite <- Hkpost. now apply in_map.
      * rewrite Hs. apply in_or_app. right. now right.
    + intros Hk. rewrite DictFacts.get_set_ne by congruence.
      apply DictFacts.get_del_eq.
    + intros k Hk Hid. rewrite DictFacts.get_set_ne by congruence.
      apply DictFacts.get_del_ne. congruence.
Qed.

Lemma flash_message_eviction_witness :
  let w := demo_world (Some crowded) 1030 in
  let w' := snd (flash_message "New message" "positive" None w) in
  (request_path w = Some "/test" /\ Dict.wf (the_store w) /\
   (MAX_MESSAGES_PER_SESSION <= length (sweep (now w) (the_store w)))%nat) /\
  exists k0 d0 pre post,
    sweep (now w) (the_store w) = pre ++ (k0, d0) :: post /\
    (forall kv, In kv pre -> get_timestamp d0 < get_timestamp (snd kv)) /\
    (forall kv, In kv post -> get_timestamp d0 <= get_timestamp (snd kv)) /\
    (k0 <> used_id None w -> Dict.get k0 (the_store w') = None) /\
    (forall k, k <> k0 -> k <> used_id None w ->
               Dict.get k (the_store w') = Dict.get k (sweep (now w) (the_store w))).
Proof.
  intros w w'.
  assert (Hwf : Dict.wf (the_store w)).
  { apply distinct_NoDup. reflexivity. }
  assert (Hfull : (MAX_MESSAGES_PER_SESSION
                   <= length (sweep (now w) (the_store w)))%nat).
  { vm_compute. repeat constructor. }
  split; [repeat split; assumption|].
  exact (proj2 (@flash_message_eviction w "/test" "New message" "positive" None
                  eq_refl Hwf) Hfull).
Defined.

(** X10. Only [flash_message] adds a key or writes a message, a category or
    a timestamp.  Under any other call a record found afterwards was under
    the same key before, with the same three fields; its [consumed] flag is
    what it was or has become true. *)
Theorem only_flash_writes_content (w : world) (c : call) (k : string)
    (d' : msg_data) :
  Dict.wf (the_store w) ->
  is_flash c = false ->
  Dict.get k (the_store (snd (perform c w))) = Some d' ->
  exists d,
    Dict.get k (the_store w) = Some d /\
    message d' = message d /\ category d' = category d /\
    timestamp d' = timestamp d /\
    (consumed d' = consumed d \/ consumed d' = Some true).
Proof.
  intros Hwf Hc Hget.
  apply perform_origin in Hget as [d [G [->| ->]]]; try assumption.
  - exists d. repeat split; auto.
  - exists d. repeat split; auto.
  - destruct c; try discriminate Hc; discriminate.
Qed.

Lemma only_flash_writes_content_witness :
  let w := demo_world (Some [("/test:A", positive_1000);
                             ("/test:B", negative_1000)]) 1010 in
  let c := GetAll true (Some ["negative"]) in
  (Dict.wf (the_store w) /\ is_flash c = false /\
   Dict.get "/test:B" (the_store (snd (perform c w)))
   = Some (set_consumed negative_1000)) /\
  exists d,
    Dict.get "/test:B" (the_store w) = Some d /\
    message (set_consumed negative_1000) = message d /\
    category (set_consumed negative_1000) = category d /\
    timestamp (set_consumed negative_1000) = timestamp d /\
    (consumed (set_consumed negative_1000) = consumed d \/
     consumed (set_consumed negative_1000) = Some true).
Proof.
  intros w c.
  assert (Hwf : Dict.wf (the_store w)).
  { apply distinct_NoDup. reflexivity. }
  split; [repeat split; assumption|].
  exact (@only_flash_writes_content w c "/test:B" (set_consumed negative_1000)
           Hwf eq_refl eq_refl).
Defined.

Lemma drain_all_consumed with_categories category_filter messages :
  all_consumed messages ->
  forall result,
    drain with_categories category_filter messages result
    = (messages, Ret result).
Proof.
  unfold all_consumed. induction 1 as [|[k d] rest Hd Hrest IH]; intros result;
    cbn [drain]; [reflexivity|].
  cbn [snd] in Hd. rewrite Hd. now rewrite IH.
Qed.

Lemma mark_unfiltered_all_consumed category_filter messages :
  truthy category_filter = false ->
  all_consumed (mark category_filter messages).
Proof.
  intros HF. unfold all_consumed, mark. apply Forall_map, Forall_forall.
  intros [k d] _. cbn [fst snd]. unfold picks, excluded, unconsumed.
  rewrite HF. destruct (get_consumed d) eqn:E; cbn; [exact E | reflexivity].
Qed.

Lemma all_consumed_get messages k d :
  all_consumed messages -> Dict.get k messages = Some d -> get_consumed d = true.
Proof.
  unfold all_consumed. rewrite Forall_forall. intros Hall Hget.
  apply DictFacts.get_In in Hget. exact (Hall (k, d) Hget).
Qed.

(** X11. A [get_all_flash_messages] without a category filter ([None] or
    an empty list) that returns leaves no unconsumed record: both forms of
    [has_flash_messages] are false, and the next [get_all_flash_messages],
    with any filter, returns the empty sequence. *)
Theorem get_all_unfiltered_drains (w : world) (path : string)
    (with_categories : bool) (category_filter : option (list string))
    (res : list item) (w' : world) :
  request_path w = Some path ->
  truthy category_filter = false ->
  get_all_flash_messages with_categories category_filter w = (Ret res, w') ->
  has_flash_messages None w' = (Ret false, w') /\
  (forall k, has_flash_messages (Some k) w' = (Ret false, w')) /\
  (forall with_categories' category_filter',
     fst (get_all_flash_messages with_categories' category_filter' w') = Ret []).
Proof.
  intros Hctx HF Hrun.
  apply get_all_flash_messages_ret with (path := path) in Hrun
      as (Hs & _ & Hctx' & _); [|assumption].
  assert (Hall : all_consumed (the_store w')).
  { rewrite Hs. now apply mark_unfiltered_all_consumed. }
  repeat split.
  - rewrite has_flash_messages_run with (path := path) by assumption.
    f_equal. f_equal. apply not_true_is_false. intros H.
    apply existsb_exists in H as [d [Hin Hd]]. unfold Dict.values in Hin.
    apply in_map_iff in Hin as [[k d0] [<- Hin]]. cbn [snd] in Hd.
    unfold all_consumed in Hall. rewrite Forall_forall in Hall.
    specialize (Hall (k, d0) Hin). cbn [snd] in Hall.
    unfold unconsumed in Hd. rewrite Hall in Hd. discriminate.
  - intros k. rewrite has_flash_messages_run with (path := path) by assumption.
    destruct (Dict.get k (the_store w')) as [d|] eqn:G; [|reflexivity].
    unfold unconsumed. now rewrite (all_consumed_get k Hall G).
  - intros wc' F'.
    rewrite get_all_flash_messages_run with (path := path) by assumption.
    rewrite drain_all_consumed; [reflexivity|].
    unfold all_consumed, sweep. now apply Forall_filter.
Qed.

Lemma get_all_unfiltered_drains_witness :
  let w := demo_world (Some [("/test:A", positive_1000);
                             ("/test:B", negative_1000)]) 1010 in
  let w' := snd (get_all_flash_messages true (Some []) w) in
  (request_path w = Some "/test" /\ truthy (Some []) = false /\
   get_all_flash_messages true (Some []) w
   = (Ret [CatMsg "positive" "Positive message";
           CatMsg "negative" "Negative message"], w')) /\
  has_flash_messages None w' = (Ret false, w') /\
  fst (get_all_flash_messages false (Some ["positive"]) w') = Ret [].
Proof.
  intros w w'. split; [repeat split|].
  destruct (@get_all_unfiltered_drains w "/test" true (Some [])
              [CatMsg "positive" "Positive message";
               CatMsg "negative" "Negative message"] w'
              eq_refl eq_refl eq_refl) as (Hany & _ & Hnext).
  split; [exact Hany | exact (Hnext false (Some ["positive"]))].
Defined.

Lemma perform_returns c w :
  all_text (the_store w) -> fst (perform c w) = None.
Proof.
  intros Hall.
  assert (Hfst : forall (A : Type) (r : outcome A * world) (a : A),
             fst r = Ret a -> fst (raised r) = None).
  { intros A [[x|e] w0] y; simpl; [reflexivity | discriminate]. }
  destruct c as [msg cat rid | rid wc F | wc F | rid | rid]; cbn [perform].
  - destruct (flash_message_returns msg cat rid w) as [r Hr]. eapply Hfst, Hr.
  - destruct (get_flash_messages_returns rid wc F w Hall) as [r Hr].
    eapply Hfst, Hr.
  - destruct (get_all_flash_messages_returns wc F w Hall) as [r Hr].
    eapply Hfst, Hr.
  - destruct (request_path w) as [path|] eqn:Hctx.
    + now rewrite clear_flash_messages_run with (path := path).
    + unfold clear_flash_messages, has_request_context, bind, ret.
      now rewrite Hctx.
  - destruct (request_path w) as [path|] eqn:Hctx.
    + now rewrite has_flash_messages_run with (path := path).
    + unfold has_flash_messages, has_request_context, bind, ret.
      now rewrite Hctx.
Qed.

(** X12. In a session that only this module has written, starting without
    the key, no public call ever raises: the records it stores carry
    [message] and [category], the only fields read with [[...]], and the
    [min] of the eviction is never taken of an empty mapping. *)
Theorem reachable_never_raises (w : world) (c : call) :
  reachable w -> fst (perform c w) = None.
Proof.
  intros Hreach. apply reachable_invariant in Hreach as (_ & _ & Hall).
  now apply perform_returns.
Qed.

Lemma reachable_never_raises_witness :
  let w0 := demo_world None 1000 in
  let w := perform_all [Flash "Positive message" "positive" None;
                        Get "/test:A" true (Some ["negative"]);
                        Flash "Negative message" "negative" None] w0 in
  reachable w /\
  session w <> None /\
  fst (perform (GetAll true (Some ["negative"])) w) = None.
Proof.
  intros w0 w.
  assert (Hreach : reachable w).
  { repeat apply reach_call. now apply reach_new. }
  split; [exact Hreach|]. split; [discriminate|].
  exact (@reachable_never_raises w (GetAll true (Some ["negative"])) Hreach).
Defined.

Lemma sweep_sweep t1 t2 messages :
  t1 <= t2 -> sweep t2 (sweep t1 messages) = sweep t2 messages.
Proof.
  intros Hle. unfold sweep. induction messages as [|[k d] rest IH]; cbn [filter snd];
    [reflexivity|].
  destruct (fresh_at t1 d) eqn:E1; cbn [filter snd].
  - now rewrite IH.
  - assert (E2 : fresh_at t2 d = false).
    { unfold fresh_at in *. apply Z.ltb_ge in E1. apply Z.ltb_ge. lia. }
    now rewrite E2.
Qed.

(** X13. Lazy sweeps compose.  [_cleanup_old_messages] applied to its own
    result, on a clock that has not gone back between the two readings,
    gives what a single sweep at the later reading gives. *)
Theorem cleanup_twice_is_cleanup_later (w : world) (messages : store) :
  clock w (clock_reads w) <= clock w (S (clock_reads w)) ->
  fst ((swept <- _cleanup_old_messages messages ;;
        _cleanup_old_messages swept) w)
  = fst (_cleanup_old_messages messages (snd (time_time w))).
Proof.
  intros Hle. unfold _cleanup_old_messages, time_time, bind, ret. cbn.
  f_equal. now apply (sweep_sweep messages Hle).
Qed.

Lemma cleanup_twice_is_cleanup_later_witness :
  let w := demo_world None 1055 in
  let messages := [("/test:A", positive_1000);
                   ("/test:B", new_record "Later" "positive" 1050)] in
  clock w (clock_reads w) <= clock w (S (clock_reads w)) /\
  fst ((swept <- _cleanup_old_messages messages ;;
        _cleanup_old_messages swept) w)
  = fst (_cleanup_old_messages messages (snd (time_time w))).
Proof.
  intros w messages.
  assert (Hle : clock w (clock_reads w) <= clock w (S (clock_reads w))).
  { vm_compute. discriminate. }
  split; [exact Hle|].
  exact (@cleanup_twice_is_cleanup_later w messages Hle).
Defined.

Lemma In_set k0 v (messages : store) k d :
  In (k, d) (Dict.set k0 v messages) ->
  (k = k0 /\ d = v) \/ In (k, d) messages.
Proof.
  induction messages as [|[k' d'] rest IH]; cbn [Dict.set].
  - intros [[= <- <-]|[]]. now left.
  - destruct (String.eqb k' k0).
    + intros [[= <- <-]|H]; [now left | right; now right].
    + intros [H|H]; [right; now left|].
      apply IH in H as [H|H]; [now left | right; now right].
Qed.

Lemma In_evict messages kv : In kv (evict messages) -> In kv messages.
Proof.
  unfold evict.
  destruct (MAX_MESSAGES_PER_SESSION <=? length messages)%nat; [|auto].
  destruct (oldest_key messages); [|auto].
  unfold Dict.del. intros H. apply filter_In in H. tauto.
Qed.

Lemma In_mark category_filter messages k d :
  In (k, d) (mark category_filter messages) ->
  exists d0, In (k, d0) messages /\ (d = d0 \/ d = set_consumed d0).
Proof.
  unfold mark. intros H. apply in_map_iff in H as [[k0 d0] [Heq Hin]].
  cbn [fst snd] in Heq. destruct (picks category_filter d0);
    injection Heq as <- <-; eauto.
Qed.

(** X14. What a sweeping call leaves is young.  After [flash_message]
    every record other than the new one, and after a
    [get_all_flash_messages] that returns every record, is younger than
    [MAX_MESSAGE_AGE] at the clock reading the call swept with. *)
Theorem sweeping_calls_leave_young_records (w : world) (path : string) :
  request_path w = Some path ->
  (forall msg cat request_id k d,
     In (k, d) (the_store (snd (flash_message msg cat request_id w))) ->
     (k = used_id request_id w /\
      d = new_record msg cat (clock w (S (clock_reads w)))) \/
     now w - get_timestamp d < MAX_MESSAGE_AGE) /\
  (forall with_categories category_filter res w' k d,
     get_all_flash_messages with_categories category_filter w = (Ret res, w') ->
     In (k, d) (the_store w') ->
     now w - get_timestamp d < MAX_MESSAGE_AGE).
Proof.
  intros Hctx. split.
  - intros msg cat rid k d.
    rewrite flash_message_run with (path := path) by assumption. cbn [snd].
    rewrite the_store_after_flash. intros Hin.
    apply In_set in Hin as [H|Hin]; [now left | right].
    apply In_evict, sweep_In in Hin. tauto.
  - intros wc F res w' k d Hrun Hin.
    apply get_all_flash_messages_ret with (path := path) in Hrun
        as (Hs & _); [|assumption].
    rewrite Hs in Hin. apply In_mark in Hin as [d0 [Hin Hd]].
    apply sweep_In in Hin as [_ Hyoung]. cbn [snd] in Hyoung.
    destruct Hd as [->| ->]; exact Hyoung.
Qed.

Lemma sweeping_calls_leave_young_records_witness :
  let w := demo_world (Some [("/test:A", positive_1000);
                             ("/test:B", new_record "Later" "positive" 1050)])
             1070 in
  let w' := snd (flash_message "New message" "positive" None w) in
  (request_path w = Some "/test" /\
   In ("/test:B", new_record "Later" "positive" 1050) (the_store w')) /\
  now w - get_timestamp (new_record "Later" "positive" 1050) < MAX_MESSAGE_AGE.
Proof.
  intros w w'.
  assert (Hin : In ("/test:B", new_record "Later" "positive" 1050) (the_store w')).
  { now left. }
  split; [split; [reflexivity | exact Hin]|].
  destruct (proj1 (@sweeping_calls_leave_young_records w "/test" eq_refl)
              "New message" "positive" None "/test:B"
              (new_record "Later" "positive" 1050) Hin) as [[Hk _]|Hyoung].
  - discriminate Hk.
  - exact Hyoung.
Defined.

Lemma drain_raise_kind with_categories category_filter messages :
  forall result messages' e,
    drain with_categories category_filter messages result = (messages', Raise e) ->
    e = KeyError "message" \/ e = KeyError "category".
Proof.
  induction messages as [|[k d] rest IH]; intros result messages' e H;
    cbn [drain] in H; [discriminate|].
  destruct (get_consumed d).
  - destruct (drain with_categories category_filter rest result) as [r o] eqn:E.
    injection H as _ ->. eauto.
  - unfold excluded, render, item_category, item_message in H.
    destruct (truthy category_filter), (category d), (message d), with_categories;
      cbn in H;
      repeat match type of H with
        | context [if ?b then _ else _] => destruct b; cbn in H
        | context [drain ?a ?b ?c ?r] =>
            let E := fresh "E" in
            destruct (drain a b c r) as [? ?] eqn:E; cbn in H
        end;
      try (injection H as _ <-; auto; fail);
      try (injection H as _ ->; eauto; fail).
Qed.

(** X15. A [get_all_flash_messages] that raises.  The exception is a
    [KeyError] for "message" or "category", and the mapping holds a record
    that lacks one of them.  The swept mapping is not written back: the
    session keeps every key, expired ones included, and each record is as
    it was or has been marked consumed, although nothing was returned. *)
Theorem get_all_interrupted (w : world) (path : string) (with_categories : bool)
    (category_filter : option (list string)) (e : exn) (w' : world) :
  request_path w = Some path ->
  Dict.wf (the_store w) ->
  get_all_flash_messages with_categories category_filter w = (Raise e, w') ->
  (e = KeyError "message" \/ e = KeyError "category") /\
  ~ all_text (the_store w) /\
  Dict.keys (the_store w') = Dict.keys (the_store w) /\
  (forall k d, Dict.get k (the_store w) = Some d ->
     Dict.get k (the_store w') = Some d \/
     Dict.get k (the_store w') = Some (set_consumed d)).
Proof.
  intros Hctx Hwf Hrun.
  assert (Hnot : ~ all_text (the_store w)).
  { intros Hall.
    destruct (get_all_flash_messages_returns with_categories category_filter w Hall)
      as [res Hres].
    rewrite Hrun in Hres. discriminate. }
  rewrite get_all_flash_messages_run with (path := path) in Hrun by assumption.
  injection Hrun as Hout Hw'.
  assert (Hkeys : Dict.keys (the_store w') = Dict.keys (the_store w)).
  { rewrite <- Hw'. unfold after_get_all.
    destruct (drain with_categories category_filter (sweep (now w) (the_store w)) [])
      as [m o]. cbn [snd] in Hout. subst o.
    unfold the_store. cbn [session].
    destruct (session w) as [s|]; cbn [option_map]; [apply keys_shared | reflexivity]. }
  repeat split.
  - destruct (drain with_categories category_filter (sweep (now w) (the_store w)) [])
      as [m o] eqn:E. cbn [snd] in Hout. subst o.
    now apply drain_raise_kind in E.
  - exact Hnot.
  - exact Hkeys.
  - intros k d G.
    destruct (Dict.get k (the_store w')) as [d'|] eqn:G'.
    + rewrite <- Hw' in G'.
      apply get_after_get_all in G' as [d0 [G0 Hd]]; [|assumption].
      rewrite G in G0. injection G0 as <-. destruct Hd as [->| ->]; auto.
    + apply DictFacts.get_None_keys in G'. rewrite Hkeys in G'.
      apply DictFacts.get_None_keys in G'. congruence.
Qed.

Lemma get_all_interrupted_witness :
  let w := demo_world (Some [("/test:A", new_record "Old message" "positive" 900);
                             ("/test:B", positive_1000);
                             ("/test:C", no_message)]) 1030 in
  let w' := snd (get_all_flash_messages false None w) in
  (request_path w = Some "/test" /\ Dict.wf (the_store w) /\
   get_all_flash_messages false None w = (Raise (KeyError "message"), w')) /\
  Dict.keys (the_store w') = ["/test:A"; "/test:B"; "/test:C"] /\
  Dict.get "/test:B" (the_store w') = Some (set_consumed positive_1000).
Proof.
  intros w w'.
  assert (Hwf : Dict.wf (the_store w)).
  { apply distinct_NoDup. reflexivity. }
  split; [repeat split; assumption|].
  destruct (@get_all_interrupted w "/test" false None (KeyError "message") w'
              eq_refl Hwf eq_refl) as (_ & _ & Hkeys & _).
  split; [exact Hkeys | reflexivity].
Defined.

Lemma evict_under_capacity messages :
  (length messages < MAX_MESSAGES_PER_SESSION)%nat -> evict messages = messages.
Proof.
  intros H. unfold evict. apply Nat.leb_gt in H. now rewrite H.
Qed.

Lemma flash_each_under_capacity (path : string)
    (l : list (string * string * string)) :
  forall w,
    request_path w = Some path ->
    the_store w = [] ->
    NoDup (request_ids l) ->
    (length l <= MAX_MESSAGES_PER_SESSION)%nat ->
    (forall i j, (i < j < length l)%nat ->
                 sweep_time w j - stamp w i < MAX_MESSAGE_AGE) ->
    request_path (flash_each l w) = Some path /\
    clock (flash_each l w) = clock w /\
    clock_reads (flash_each l w) = (clock_reads w + 2 * length l)%nat /\
    the_store (flash_each l w) = inserted (clock w) (clock_reads w) l.
Proof.
  induction l as [|[[rid msg] cat] l IH] using rev_ind;
    intros w Hctx Hempty Hids Hlen Hfresh.
  - simpl. rewrite Hempty. repeat split; auto.
  - unfold request_ids in Hids. rewrite map_app in Hids. cbn [map fst] in Hids.
    rewrite length_app in Hlen, Hfresh. cbn [length] in Hlen, Hfresh.
    destruct (IH w Hctx Hempty) as (Hp & Hc & Hr & Hs).
    { now apply NoDup_app_remove_r in Hids. }
    { lia. }
    { intros i j Hij. apply Hfresh. lia. }
    rewrite flash_each_app. cbn [flash_each].
    set (w0 := flash_each l w) in *.
    rewrite flash_message_run with (path := path) by assumption. cbn [snd].
    assert (Hnow : now w0 = sweep_time w (length l)).
    { unfold now, sweep_time. now rewrite Hc, Hr. }
    assert (Hsweep : sweep (now w0) (the_store w0) = the_store w0).
    { apply filter_all. intros kv Hkv. rewrite Hs in Hkv.
      apply In_inserted in Hkv as [i [Hi Ht]].
      unfold fresh_at. apply Z.ltb_lt. rewrite Ht, Hnow.
      apply (Hfresh i (length l)). lia. }
    assert (Hnew : Dict.get rid (the_store w0) = None).
    { apply DictFacts.get_None_keys. rewrite Hs, keys_inserted.
      apply NoDup_remove_2 in Hids. now rewrite app_nil_r in Hids. }
    repeat split.
    + exact Hp.
    + exact Hc.
    + cbn [clock_reads after_flash]. rewrite Hr, length_app. simpl. lia.
    + rewrite the_store_after_flash, Hsweep.
      rewrite evict_under_capacity by (rewrite Hs, length_inserted; lia).
      rewrite set_new_app by exact Hnew.
      rewrite Hs, inserted_app. cbn [inserted used_id].
      now rewrite Hc, Hr.
Qed.

Lemma rendered_inserted with_categories c reads l :
  rendered with_categories (inserted c reads l)
  = map (fun x => if with_categories
                  then CatMsg (snd x) (snd (fst x)) else Msg (snd (fst x))) l.
Proof.
  revert reads. induction l as [|[[rid msg] cat] l IH]; intros reads;
    [reflexivity|].
  cbn [inserted]. unfold rendered in *. cbn [flat_map map fst snd].
  rewrite IH. now destruct with_categories.
Qed.

Lemma picked_inserted c reads l :
  picked None (inserted c reads l) = inserted c reads l.
Proof.
  unfold picked. apply filter_all. revert reads.
  induction l as [|[[rid msg] cat] l IH]; intros reads kv; cbn [inserted];
    [intros []|].
  intros [<-|H]; [reflexivity | eauto].
Qed.

Lemma all_text_inserted c reads l : all_text (inserted c reads l).
Proof.
  unfold all_text. revert reads.
  induction l as [|[[rid msg] cat] l IH]; intros reads; cbn [inserted];
    constructor; auto.
Qed.

(** X16. Order of delivery.  Flash up to [MAX_MESSAGES_PER_SESSION]
    messages under distinct ids into an empty mapping, none of them expiring
    on the way; then [get_all_flash_messages()], swept while all are still
    young, returns all of them, once each, in the order they were flashed. *)
Theorem get_all_in_insertion_order (w : world) (path : string)
    (l : list (string * string * string)) (with_categories : bool) :
  request_path w = Some path ->
  the_store w = [] ->
  NoDup (request_ids l) ->
  (length l <= MAX_MESSAGES_PER_SESSION)%nat ->
  (forall i j, (i < j <= length l)%nat ->
               sweep_time w j - stamp w i < MAX_MESSAGE_AGE) ->
  fst (get_all_flash_messages with_categories None (flash_each l w))
  = Ret (map (fun x => if with_categories
                       then CatMsg (snd x) (snd (fst x))
                       else Msg (snd (fst x))) l).
Proof.
  intros Hctx Hempty Hids Hlen Hfresh.
  destruct (@flash_each_under_capacity path l w Hctx Hempty Hids Hlen)
    as (Hp & Hc & Hr & Hs).
  { intros i j Hij. apply Hfresh. lia. }
  rewrite get_all_flash_messages_run with (path := path) by assumption.
  assert (Hsweep : sweep (now (flash_each l w)) (the_store (flash_each l w))
                   = inserted (clock w) (clock_reads w) l).
  { rewrite Hs. apply filter_all. intros kv Hkv.
    apply In_inserted in Hkv as [i [Hi Ht]].
    unfold fresh_at. apply Z.ltb_lt. rewrite Ht. unfold now. rewrite Hc, Hr.
    apply (Hfresh i (length l)). lia. }
  rewrite Hsweep.
  destruct (drain_total with_categories None
              (all_text_inserted (clock w) (clock_reads w) l) [])
    as [res Hres].
  rewrite Hres. cbn [snd]. apply drain_ret in Hres as [_ ->].
  now rewrite picked_inserted, rendered_inserted.
Qed.

Lemma get_all_in_insertion_order_witness :
  let w := demo_world None 1000 in
  let l := [("first", "Message 1", "positive");
            ("second", "Message 2", "negative");
            ("third", "Message 3", "positive")] in
  (request_path w = Some "/test" /\ the_store w = [] /\
   NoDup (request_ids l) /\ (length l <= MAX_MESSAGES_PER_SESSION)%nat) /\
  fst (get_all_flash_messages true None (flash_each l w))
  = Ret [CatMsg "positive" "Message 1"; CatMsg "negative" "Message 2";
         CatMsg "positive" "Message 3"].
Proof.
  intros w l.
  assert (Hids : NoDup (request_ids l)) by (apply distinct_NoDup; reflexivity).
  assert (Hlen : (length l <= MAX_MESSAGES_PER_SESSION)%nat).
  { unfold MAX_MESSAGES_PER_SESSION. simpl. lia. }
  assert (Hfresh : forall i j, (i < j <= length l)%nat ->
                               sweep_time w j - stamp w i < MAX_MESSAGE_AGE).
  { intros i j Hij. unfold sweep_time, stamp, w, demo_world.
    cbn [clock clock_reads]. unfold MAX_MESSAGE_AGE. simpl in Hij. lia. }
  split; [repeat split; assumption|].
  exact (@get_all_in_insertion_order w "/test" l true eq_refl eq_refl
           Hids Hlen Hfresh).
Defined.

(** X17. Where [flash_message] puts the record.  With no record expired
    and the mapping below capacity, an id that is not in the mapping is
    added after all the others; an id that is in it has its record replaced
    where it stands, so the earlier message under that id is lost while the
    keys, their order and every other record stay. *)
Theorem flash_message_position (w : world) (path msg cat : string)
    (request_id : option string) :
  request_path w = Some path ->
  (forall kv, In kv (the_store w) -> fresh_at (now w) (snd kv) = true) ->
  (length (the_store w) < MAX_MESSAGES_PER_SESSION)%nat ->
  let id := used_id request_id w in
  let record := new_record msg cat (clock w (S (clock_reads w))) in
  let w' := snd (flash_message msg cat request_id w) in
  (Dict.get id (the_store w) = None ->
   the_store w' = the_store w ++ [(id, record)]) /\
  (Dict.get id (the_store w) <> None ->
   Dict.keys (the_store w') = Dict.keys (the_store w) /\
   Dict.get id (the_store w') = Some record /\
   forall k, k <> id -> Dict.get k (the_store w') = Dict.get k (the_store w)).
Proof.
  intros Hctx Hfresh Hlen id record w'. unfold w'.
  rewrite flash_message_run with (path := path) by assumption. cbn [snd].
  rewrite the_store_after_flash. fold id. fold record.
  assert (Hsweep : sweep (now w) (the_store w) = the_store w).
  { now apply filter_all. }
  rewrite Hsweep, evict_under_capacity by assumption.
  split.
  - intros Hnew. now apply set_new_app.
  - intros Hold. repeat split.
    + now apply DictFacts.keys_set_mem.
    + apply DictFacts.get_set_eq.
    + intros k Hk. apply DictFacts.get_set_ne. congruence.
Qed.

Lemma flash_message_position_witness :
  let w := demo_world (Some [("/test:A", positive_1000);
                             ("/test:B", negative_1000)]) 1010 in
  let w' := snd (flash_message "Replaced" "information" (Some "/test:A") w) in
  (request_path w = Some "/test" /\
   (forall kv, In kv (the_store w) -> fresh_at (now w) (snd kv) = true) /\
   (length (the_store w) < MAX_MESSAGES_PER_SESSION)%nat /\
   Dict.get "/test:A" (the_store w) <> None) /\
  Dict.keys (the_store w') = ["/test:A"; "/test:B"] /\
  Dict.get "/test:A" (the_store w')
  = Some (new_record "Replaced" "information" 1011) /\
  Dict.get "/test:B" (the_store w') = Some negative_1000.
Proof.
  intros w w'.
  assert (Hfresh : forall kv, In kv (the_store w) ->
                              fresh_at (now w) (snd kv) = true).
  { intros kv [<-|[<-|[]]]; reflexivity. }
  assert (Hlen : (length (the_store w) < MAX_MESSAGES_PER_SESSION)%nat).
  { unfold MAX_MESSAGES_PER_SESSION. simpl. lia. }
  assert (Hold : Dict.get "/test:A" (the_store w) <> None) by discriminate.
  split; [repeat split; assumption|].
  destruct (proj2 (@flash_message_position w "/test" "Replaced" "information"
                     (Some "/test:A") eq_refl Hfresh Hlen) Hold)
    as (Hkeys & Hget & Hother).
  split; [exact Hkeys|]. split; [exact Hget|].
  apply (Hother "/test:B"). discriminate.
Defined.

(** X18. What [get_flash_messages] returns for a record that has a message
    and a category: nothing when the category filter is a non-empty list
    that does not hold the category; otherwise the message, or the pair
    [(category, message)] with [with_categories].  An empty list filters
    nothing, like [None]. *)
Theorem get_flash_messages_result (w : world) (path r m c : string)
    (d : msg_data) (with_categories : bool)
    (category_filter : option (list string)) :
  request_path w = Some path ->
  Dict.get r (the_store w) = Some d ->
  message d = Some m ->
  category d = Some c ->
  fst (get_flash_messages r with_categories category_filter w)
  = Ret (match category_filter with
         | Some (x :: l) =>
             if str_in c (x :: l)
             then [if with_categories then CatMsg c m else Msg m]
             else []
         | _ => [if with_categories then CatMsg c m else Msg m]
         end).
Proof.
  intros Hctx Hget Hm Hc.
  rewrite get_flash_messages_run with (path := path) (d := d) by assumption.
  cbn [fst]. unfold excluded, render, item_category, item_message.
  cbn [set_consumed message category]. rewrite Hm, Hc.
  destruct category_filter as [[|x l]|]; cbn [truthy filter_list].
  - now destruct with_categories.
  - destruct (str_in c (x :: l)); cbn [negb]; [|reflexivity].
    now destruct with_categories.
  - now destruct with_categories.
Qed.

Lemma get_flash_messages_result_witness :
  let w := demo_world (Some [("/test:A", positive_1000)]) 1010 in
  (request_path w = Some "/test" /\
   Dict.get "/test:A" (the_store w) = Some positive_1000 /\
   message positive_1000 = Some "Positive message" /\
   category positive_1000 = Some "positive") /\
  fst (get_flash_messages "/test:A" true (Some ["negative"; "positive"]) w)
  = Ret [CatMsg "positive" "Positive message"] /\
  fst (get_flash_messages "/test:A" false (Some []) w)
  = Ret [Msg "Positive message"].
Proof.
  intros w. split; [repeat split|]. split.
  - exact (@get_flash_messages_result w "/test" "/test:A" "Positive message"
             "positive" positive_1000 true (Some ["negative"; "positive"])
             eq_refl eq_refl eq_refl eq_refl).
  - exact (@get_flash_messages_result w "/test" "/test:A" "Positive message"
             "positive" positive_1000 false (Some [])
             eq_refl eq_refl eq_refl eq_refl).
Defined.

(** X19. A message read by id is not delivered again by
    [get_all_flash_messages]: after [get_flash_messages] on an id, and any
    calls other than [flash_message], a [get_all_flash_messages] that
    returns does not return the record of that id. *)
Theorem read_by_id_not_delivered_by_all (w : world) (path r : string)
    (wc wc' : bool) (F F' : option (list string)) (between : list call)
    (res : list item) (w3 : world) :
  request_path w = Some path ->
  Dict.wf (the_store w) ->
  Forall (fun c => is_flash c = false) between ->
  let w2 := perform_all between (snd (get_flash_messages r wc F w)) in
  get_all_flash_messages wc' F' w2 = (Ret res, w3) ->
  res = rendered wc' (picked F' (sweep (now w2) (the_store w2))) /\
  ~ In r (Dict.keys (picked F' (sweep (now w2) (the_store w2)))).
Proof.
  intros Hctx Hwf Hbetween w2 Hrun.
  assert (Hw1 : snd (get_flash_messages r wc F w) = snd (perform (Get r wc F) w)).
  { cbn [perform]. now rewrite snd_raised. }
  assert (Hwf1 : Dict.wf (the_store (snd (get_flash_messages r wc F w)))).
  { rewrite Hw1. now apply wf_perform. }
  assert (Hspent1 : spent r (the_store (snd (get_flash_messages r wc F w)))).
  { unfold spent. destruct (Dict.get r (the_store w)) as [d|] eqn:G.
    - rewrite get_flash_messages_run with (path := path) (d := d) by assumption.
      cbn [snd]. rewrite the_store_after_get with (d := d) by assumption.
      now rewrite DictFacts.get_set_eq.
    - rewrite get_flash_messages_absent by assumption. cbn [snd]. now rewrite G. }
  destruct (perform_all_between Hbetween _ Hwf1) as (Hp & Hwf2 & _ & Hs).
  fold w2 in Hp, Hwf2, Hs.
  assert (Hctx2 : request_path w2 = Some path).
  { rewrite Hp, Hw1, request_path_perform. exact Hctx. }
  apply get_all_flash_messages_ret with (path := path) in Hrun
      as (_ & Hres & _ & _); [|assumption].
  split; [exact Hres|].
  intros Hin. apply picked_unspent in Hin as [d [G P]]; [|now apply wf_sweep].
  specialize (Hs r Hspent1). unfold spent in Hs.
  rewrite get_sweep in G by assumption.
  destruct (Dict.get r (the_store w2)) as [d0|]; [|discriminate].
  destruct (fresh_at (now w2) d0); [|discriminate].
  injection G as ->. now apply picks_not_consumed in P.
Qed.

Lemma read_by_id_not_delivered_by_all_witness :
  let w := demo_world (Some [("/test:A", positive_1000);
                             ("/test:B", negative_1000)]) 1010 in
  let w2 := perform_all [Has (Some "/test:A")]
              (snd (get_flash_messages "/test:A" false None w)) in
  (request_path w = Some "/test" /\ Dict.wf (the_store w) /\
   Forall (fun c => is_flash c = false) [Has (Some "/test:A")] /\
   fst (get_all_flash_messages false None w2) = Ret [Msg "Negative message"]) /\
  ~ In "/test:A" (Dict.keys (picked None (sweep (now w2) (the_store w2)))).
Proof.
  intros w w2.
  assert (Hwf : Dict.wf (the_store w)).
  { apply distinct_NoDup. reflexivity. }
  assert (Hb : Forall (fun c => is_flash c = false) [Has (Some "/test:A")]).
  { repeat constructor. }
  split; [repeat split; assumption|].
  exact (proj2 (@read_by_id_not_delivered_by_all w "/test" "/test:A" false false
                  None None [Has (Some "/test:A")] [Msg "Negative message"]
                  (snd (get_all_flash_messages false None w2))
                  eq_refl Hwf Hb eq_refl)).
Defined.

(** X20. The other way round it is delivered again.  A record that
    [get_all_flash_messages] picks is unconsumed before the call, its item
    is in the returned sequence, and it is stored with [consumed = True]
    afterwards; [get_flash_messages] on its id, which does not test the
    flag, then returns the same item once more. *)
Theorem delivered_by_all_still_read_by_id (w : world) (path k : string)
    (d : msg_data) (wc : bool) (F : option (list string)) (res : list item)
    (w' : world) :
  request_path w = Some path ->
  Dict.wf (the_store w) ->
  get_all_flash_messages wc F w = (Ret res, w') ->
  In (k, d) (picked F (sweep (now w) (the_store w))) ->
  consumed d <> Some true /\
  exists x,
    render wc d = Ret x /\
    In x res /\
    (exists d',
       Dict.get k (the_store w') = Some d' /\ consumed d' = Some true /\
       message d' = message d /\ category d' = category d /\
       timestamp d' = timestamp d) /\
    has_flash_messages (Some k) w' = (Ret false, w') /\
    fst (get_flash_messages k wc None w') = Ret [x].
Proof.
  intros Hctx Hwf Hrun Hin.
  pose proof Hrun as Hrun'.
  rewrite get_all_flash_messages_run with (path := path) in Hrun' by assumption.
  injection Hrun' as Hout _.
  destruct (drain wc F (sweep (now w) (the_store w)) []) as [m o] eqn:E.
  cbn [snd] in Hout. subst o.
  destruct (drain_ret_renders _ _ _ _ E (k, d) Hin) as [x Hx]. cbn [snd] in Hx.
  apply get_all_flash_messages_ret with (path := path) in Hrun
      as (Hs & Hres & Hctx' & _); [|assumption].
  pose proof Hin as Hin'.
  unfold picked in Hin'. apply filter_In in Hin' as [Hsw Hp]. cbn [snd] in Hp.
  assert (G : Dict.get k (the_store w') = Some (set_consumed d)).
  { rewrite Hs, get_mark.
    rewrite DictFacts.In_get with (v := d); [|now apply wf_sweep | assumption].
    cbn [option_map]. now rewrite Hp. }
  split; [now apply picks_not_consumed in Hp|].
  exists x. split; [exact Hx|]. split.
  { rewrite Hres. now apply In_rendered with (k := k) (d := d). }
  split.
  { exists (set_consumed d). repeat split. exact G. }
  split.
  { rewrite has_flash_messages_run with (path := path) by assumption.
    now rewrite G. }
  rewrite get_flash_messages_run with (path := path) (d := set_consumed d)
    by assumption.
  cbn [fst]. unfold excluded. cbn [truthy].
  change (render wc (set_consumed (set_consumed d))) with (render wc d).
  now rewrite Hx.
Qed.

Lemma delivered_by_all_still_read_by_id_witness :
  let w := demo_world (Some [("/test:A", positive_1000)]) 1010 in
  let w' := snd (get_all_flash_messages false None w) in
  (request_path w = Some "/test" /\ Dict.wf (the_store w) /\
   get_all_flash_messages false None w = (Ret [Msg "Positive message"], w') /\
   In ("/test:A", positive_1000) (picked None (sweep (now w) (the_store w)))) /\
  consumed positive_1000 = Some false /\
  In (Msg "Positive message") [Msg "Positive message"] /\
  Dict.get "/test:A" (the_store w')
  = Some {| message := Some "Positive message"; category := Some "positive";
            timestamp := Some 1000; consumed := Some true |} /\
  has_flash_messages (Some "/test:A") w' = (Ret false, w') /\
  fst (get_flash_messages "/test:A" false None w') = Ret [Msg "Positive message"].
Proof.
  intros w w'.
  assert (Hwf : Dict.wf (the_store w)).
  { apply distinct_NoDup. reflexivity. }
  assert (Hin : In ("/test:A", positive_1000)
                  (picked None (sweep (now w) (the_store w)))) by (now left).
  split; [repeat split; assumption|].
  destruct (@delivered_by_all_still_read_by_id w "/test" "/test:A"
              positive_1000 false None [Msg "Positive message"] w'
              eq_refl Hwf eq_refl Hin)
    as (_ & x & Hx & Hinx & (d' & Hget & Hc & Hm & Hcat & Hts) & Hhas & Hagain).
  injection Hx as <-.
  split; [reflexivity|]. split; [exact Hinx|]. split.
  - rewrite Hget. destruct d' as [m' c' t' k']. cbn in Hc, Hm, Hcat, Hts.
    now subst.
  - split; [exact Hhas | exact Hagain].
Defined.
